(** * model13p.py: marker-based section splitting and the Bedrock adapter

    A shallow embedding of the three section splitters of [model13p.py]
    (the corrections parser inside [analyze_user_text_enhanced] and the two
    definitions of [parse_evaluation_results]) and of [call_bedrock_model],
    with the properties the specification states about them.

    Conventions of the embedding.
    - A Python [str] is a [str]: the sequence of its characters, each
      character its Unicode code point.  Offsets and lengths count
      characters, as Python's do.  A literal ["..."] denotes the characters
      of the literal as it is written in the program.
    - [str.find] returns [option nat] ([None] for Python's [-1]).
    - A Python [dict] with string keys is a [gmap str _].
    - Whitespace is what [str.isspace] accepts, over the whole of Unicode;
      [str.lower] maps [A-Z] to [a-z]. *)

From Stdlib Require Import ZArith NArith Lia List.
From Stdlib Require Strings.Byte.
From stdpp Require Import base tactics option list gmap.

Set Warnings "-register-all".

(** ** Python strings *)

(** A character is its code point. *)
Definition char : Set := N.

Inductive str : Set :=
  | EmptyStr
  | Str (c : char) (s : str).

Module PyStr.

Fixpoint of_chars (l : list char) : str :=
  match l with
  | [] => EmptyStr
  | c :: l' => Str c (of_chars l')
  end.

Fixpoint chars (s : str) : list char :=
  match s with
  | EmptyStr => []
  | Str c s' => c :: chars s'
  end.

(** Reading a literal: the bytes of the source file are decoded as UTF-8,
    one character per encoded code point; a byte that starts no UTF-8
    sequence stands for the character with its value. *)
Definition continuation (b : N) : bool := N.leb 128 b && N.leb b 191.

Fixpoint utf8_decode (bs : list N) : list char :=
  match bs with
  | [] => []
  | b0 :: bs1 =>
      match bs1 with
      | b1 :: bs2 =>
          if N.leb 194 b0 && N.leb b0 223 && continuation b1
          then ((b0 - 192) * 64 + (b1 - 128))%N :: utf8_decode bs2
          else
            match bs2 with
            | b2 :: bs3 =>
                if N.leb 224 b0 && N.leb b0 239 && continuation b1 && continuation b2
                then ((b0 - 224) * 4096 + (b1 - 128) * 64 + (b2 - 128))%N
                       :: utf8_decode bs3
                else
                  match bs3 with
                  | b3 :: bs4 =>
                      if N.leb 240 b0 && N.leb b0 244 && continuation b1
                         && continuation b2 && continuation b3
                      then ((b0 - 240) * 262144 + (b1 - 128) * 4096
                            + (b2 - 128) * 64 + (b3 - 128))%N :: utf8_decode bs4
                      else b0 :: utf8_decode bs1
                  | [] => b0 :: utf8_decode bs1
                  end
            | [] => b0 :: utf8_decode bs1
            end
      | [] => [b0]
      end
  end.

Definition of_literal (bs : list Byte.byte) : str :=
  of_chars (utf8_decode (map (λ b, N.of_nat (Byte.to_nat b)) bs)).

(** Showing a string of ASCII characters as a literal. *)
Definition to_literal (s : str) : option (list Byte.byte) :=
  mapM (λ c : char, if N.ltb c 128 then Byte.of_nat (N.to_nat c) else None) (chars s).

(** [len(s)] *)
Fixpoint len (s : str) : nat :=
  match s with
  | EmptyStr => 0
  | Str _ s' => S (len s')
  end.

(** [a + b] *)
Fixpoint append (a b : str) : str :=
  match a with
  | EmptyStr => b
  | Str c a' => Str c (append a' b)
  end.

(** The characters [c] with [c.isspace()]: TAB, LF, VT, FF, CR, the
    separators FS, GS, RS, US, the space, and beyond ASCII the characters
    U+0085, U+00A0, U+1680, U+2000 to U+200A, U+2028, U+2029, U+202F,
    U+205F and U+3000. *)
Definition isspace (c : char) : bool :=
  (N.leb 9 c && N.leb c 13) || (N.leb 28 c && N.leb c 32)
  || N.eqb c 133 || N.eqb c 160 || N.eqb c 5760
  || (N.leb 8192 c && N.leb c 8202)
  || N.eqb c 8232 || N.eqb c 8233 || N.eqb c 8239 || N.eqb c 8287
  || N.eqb c 12288.

(** [s.lstrip()] *)
Fixpoint lstrip (s : str) : str :=
  match s with
  | Str c s' => if isspace c then lstrip s' else s
  | EmptyStr => EmptyStr
  end.

(** [s.rstrip()] *)
Fixpoint rstrip (s : str) : str :=
  match s with
  | EmptyStr => EmptyStr
  | Str c s' =>
      match rstrip s' with
      | EmptyStr => if isspace c then EmptyStr else Str c EmptyStr
      | r => Str c r
      end
  end.

(** [s.strip()] *)
Definition strip (s : str) : str := rstrip (lstrip s).

(** [s[n:]] for [0 <= n] *)
Fixpoint slice_from (s : str) (n : nat) : str :=
  match n, s with
  | S n', Str _ s' => slice_from s' n'
  | _, _ => s
  end.

(** [s[:n]] for [0 <= n] *)
Fixpoint slice_to (s : str) (n : nat) : str :=
  match n, s with
  | S n', Str c s' => Str c (slice_to s' n')
  | _, _ => EmptyStr
  end.

(** [s[a:b]] for [0 <= a] and [0 <= b]; empty when [b <= a]. *)
Definition slice (s : str) (a b : nat) : str :=
  slice_to (slice_from s a) (b - a).

(** [s.startswith(m)] *)
Fixpoint startswith (s m : str) : bool :=
  match m, s with
  | EmptyStr, _ => true
  | Str a m', Str b s' => if decide (a = b) then startswith s' m' else false
  | Str _ _, EmptyStr => false
  end.

(** The lowest offset at or after [i] where [m] occurs in the text whose
    suffix from offset [i] is [s]. *)
Fixpoint find_from (s m : str) (i : nat) : option nat :=
  if startswith s m then Some i
  else match s with
       | EmptyStr => None
       | Str _ s' => find_from s' m (S i)
       end.

(** [s.find(m)]: the lowest offset of an occurrence of [m] in [s]. *)
Definition find (s m : str) : option nat := find_from s m 0.

(** [m in s] *)
Definition contains (s m : str) : bool :=
  match find s m with Some _ => true | None => false end.

(** [c.lower()] on one character. *)
Definition lower_char (c : char) : char :=
  if N.leb 65 c && N.leb c 90 then (c + 32)%N else c.

(** [s.lower()] *)
Fixpoint lower (s : str) : str :=
  match s with
  | EmptyStr => EmptyStr
  | Str c s' => Str (lower_char c) (lower s')
  end.

End PyStr.

Declare Scope str_scope.
Delimit Scope str_scope with str.
Bind Scope str_scope with str.
String Notation str PyStr.of_literal PyStr.to_literal : str_scope.
Infix "++" := PyStr.append (right associativity, at level 60) : str_scope.

#[global] Instance str_eq_dec : EqDecision str.
Proof. solve_decision. Defined.

#[global] Instance str_countable : Countable str.
Proof.
  refine (inj_countable' PyStr.chars PyStr.of_chars _).
  intros s. induction s as [|c s IH]; simpl; [done | by f_equal].
Defined.

Local Open Scope str_scope.
Local Open Scope nat_scope.

(** ** The section splitters *)

(** A marker list is the list of [(marker, key)] tuples the parsers
    iterate over. *)
Abbreviation marker_list := (list (str * str)).

(** An entry of [found_markers]: [(pos, marker, key)]. *)
Abbreviation found_marker := (nat * str * str)%type.

Definition fm_pos (x : found_marker) : nat := x.1.1.
Definition fm_marker_of (x : found_marker) : str := x.1.2.

Module Corrections.

(** The tuples of [sections_to_extract] in [analyze_user_text_enhanced]. *)
Definition sections_to_extract : marker_list :=
  [ ("SPELLING CORRECTIONS:", "spelling");
    ("GRAMMAR CORRECTIONS:", "grammar");
    ("COHERENCE CORRECTIONS:", "coherence");
    ("STYLE CORRECTIONS:", "style");
    ("ORDER CORRECTIONS:", "order");
    ("PROPOSED CORRECTION:", "proposed") ].

Definition fallback : str := "No corrections needed.".

(** The first loop: every marker that [find] locates is appended to
    [found_markers] with its position. *)
Fixpoint find_markers (text : str) (l : marker_list) : list found_marker :=
  match l with
  | [] => []
  | (marker, key) :: l' =>
      match PyStr.find text marker with
      | Some pos => (pos, marker, key) :: find_markers text l'
      | None => find_markers text l'
      end
  end.

(** [found_markers.sort(key=lambda x: x[0])].  Python's sort is stable, and
    a stable sort has one possible result; it is computed here by stable
    insertion. *)
Fixpoint insert_by_pos (x : found_marker) (l : list found_marker) : list found_marker :=
  match l with
  | [] => [x]
  | y :: l' => if Nat.leb (fm_pos x) (fm_pos y) then x :: l else y :: insert_by_pos x l'
  end.

Fixpoint sort_by_pos (l : list found_marker) : list found_marker :=
  match l with
  | [] => []
  | x :: l' => insert_by_pos x (sort_by_pos l')
  end.

(** The [enumerate] loop: the slice of an entry runs to the position of the
    entry after it in [found_markers], or to the end of the text for the
    last entry. *)
Fixpoint extract (text : str) (found : list found_marker)
    (sections : gmap str str) : gmap str str :=
  match found with
  | [] => sections
  | (pos, marker, key) :: rest =>
      let start_idx := pos + PyStr.len marker in
      match rest with
      | (end_idx, _, _) :: _ =>
          extract text rest
            (<[key := PyStr.strip (PyStr.slice text start_idx end_idx)]> sections)
      | [] =>
          <[key := PyStr.strip (PyStr.slice_from text start_idx)]> sections
      end
  end.

(** The last loop: every key not yet in the dictionary gets the fallback. *)
Fixpoint fill_missing (fb : str) (l : marker_list)
    (sections : gmap str str) : gmap str str :=
  match l with
  | [] => sections
  | (_, key) :: l' =>
      fill_missing fb l'
        (match sections !! key with
         | Some _ => sections
         | None => <[key := fb]> sections
         end)
  end.

(** The parser of lines 319-354 over a marker list [l]. *)
Definition split_sections (fb : str) (l : marker_list) (text : str)
    : gmap str str :=
  let found_markers := sort_by_pos (find_markers text l) in
  fill_missing fb l (extract text found_markers ∅).

(** [correction_sections] as [analyze_user_text_enhanced] computes it from
    the model's answer [corrections]. *)
Definition correction_sections (corrections : str) : gmap str str :=
  split_sections fallback sections_to_extract corrections.

End Corrections.

Module Evaluation.

(** The tuples of [section_markers] in both [parse_evaluation_results]. *)
Definition section_markers : marker_list :=
  [ ("SPELLING EVALUATION:", "spelling");
    ("GRAMMAR EVALUATION:", "grammar");
    ("STYLE EVALUATION:", "style");
    ("COHERENCE EVALUATION:", "coherence");
    ("OVERALL EVALUATION:", "overall") ].

Definition fallback : str := "No evaluation available for this section.".

(** [min(next_indices)] for a list with head [x] and tail [l]. *)
Definition list_min (x : nat) (l : list nat) : nat := fold_left Nat.min l x.

(** [[m for m, _ in section_markers if m != marker and m in evaluation_text]] *)
Definition next_markers (text : str) (l : marker_list) (marker : str)
    : list str :=
  filter (λ m, m ≠ marker ∧ PyStr.contains text m = true) (l.*1).

(** [[evaluation_text.find(m) for m in next_markers
      if evaluation_text.find(m) > start_idx]] *)
Fixpoint next_indices (text : str) (ms : list str) (start_idx : nat)
    : list nat :=
  match ms with
  | [] => []
  | m :: ms' =>
      match PyStr.find text m with
      | Some i => if Nat.ltb start_idx i then i :: next_indices text ms' start_idx
                  else next_indices text ms' start_idx
      | None => next_indices text ms' start_idx
      end
  end.

(** The value stored for a marker that is in the text, found at [pos]. *)
Definition section_text (text : str) (l : marker_list) (marker : str)
    (pos : nat) : str :=
  let start_idx := pos + PyStr.len marker in
  match next_markers text l marker with
  | [] => PyStr.strip (PyStr.slice_from text start_idx)
  | ms =>
      match next_indices text ms start_idx with
      | [] => PyStr.strip (PyStr.slice_from text start_idx)
      | i :: rest => PyStr.strip (PyStr.slice text start_idx (list_min i rest))
      end
  end.

(** The body of the loop over [section_markers], for the tuple
    [(marker, key)].  [all] is the whole list (the inner comprehension
    ranges over it) and [missing] what the [else] branch stores: [Some fb]
    for the definition that has the branch, [None] for the definition
    without it. *)
Definition loop_body (missing : option str) (text : str) (all : marker_list)
    (sections : gmap str str) (entry : str * str)
    : gmap str str :=
  let '(marker, key) := entry in
  if PyStr.contains text marker then
    match PyStr.find text marker with
    | Some pos => <[key := section_text text all marker pos]> sections
    | None => sections  (* not reached: the marker is in the text *)
    end
  else
    match missing with
    | Some fb => <[key := fb]> sections
    | None => sections
    end.

(** [sections = {}], then the loop over the marker list [l]. *)
Definition parse_with (missing : option str) (l : marker_list)
    (text : str) : gmap str str :=
  foldl (loop_body missing text l) ∅ l.

(** [parse_evaluation_results] as defined at line 584 (with the [else]
    branch that stores the fallback). *)
Definition parse_evaluation_results (evaluation_text : str)
    : gmap str str :=
  parse_with (Some fallback) section_markers evaluation_text.

(** [parse_evaluation_results] as defined again at line 1323 (no [else]
    branch: a key whose marker is absent is not stored). *)
Definition parse_evaluation_results_1323 (evaluation_text : str)
    : gmap str str :=
  parse_with None section_markers evaluation_text.

End Evaluation.

(** ** The inference adapter [call_bedrock_model] *)

Module Bedrock.

(** Python values that travel through the adapter: what [json.loads]
    returns and what [json.dumps] is given.  A [dict] is the list of its
    items and a key is read at its first item; a float is kept as its
    literal. *)
Inductive json : Type :=
  | JNull
  | JBool (b : bool)
  | JInt (n : Z)
  | JFloat (literal : str)
  | JStr (s : str)
  | JList (l : list json)
  | JDict (items : list (str * json)).

(** The exceptions the body of the [try] can raise.  The first four are
    raised by the operations on the response.  The others come out of the
    client: [ClientException] stands for an exception derived from
    [Exception] that [invoke_model], [read], [decode] or [json.loads]
    raised; [KeyboardInterrupt], [SystemExit] and [GeneratorExit] are the
    built-in exceptions that derive from [BaseException] only. *)
Inductive exn : Type :=
  | AttributeError
  | IndexError
  | KeyError
  | TypeError
  | ClientException (what : str)
  | KeyboardInterrupt
  | SystemExit
  | GeneratorExit.

(** [isinstance(e, Exception)] *)
Definition is_Exception (e : exn) : bool :=
  match e with
  | KeyboardInterrupt | SystemExit | GeneratorExit => false
  | _ => true
  end.

(** A value or a raised exception. *)
Definition result (A : Type) : Type := exn + A.

#[global] Instance result_ret : MRet result := λ A a, inr a.
#[global] Instance result_bind : MBind result := λ A B k r,
  match r with
  | inr a => k a
  | inl e => inl e
  end.

(** What the call observably does to the outside. *)
Inductive event : Type :=
  | Dumps (obj : json)
  | InvokeModel (modelId body : str).

(** Computations that log events and either return or raise. *)
Definition M (A : Type) : Type := list event → result A * list event.

#[global] Instance M_ret : MRet M := λ A a tr, (inr a, tr).
#[global] Instance M_bind : MBind M := λ A B k m tr,
  match m tr with
  | (inr a, tr') => k a tr'
  | (inl e, tr') => (inl e, tr')
  end.

Definition raise {A} (e : exn) : M A := λ tr, (inl e, tr).
Definition log (ev : event) : M unit := λ tr, (inr tt, (tr ++ [ev])%list).
#[global] Typeclasses Opaque result M.

Definition lift {A} (r : result A) : M A :=
  match r with inr a => mret a | inl e => raise e end.

(** [try: body  except Exception as e: handler(e)]: an exception that is
    no instance of [Exception] is not caught. *)
Definition try_except {A} (body : M A) (handler : exn → M A) : M A :=
  λ tr, match body tr with
        | (inr a, tr') => (inr a, tr')
        | (inl e, tr') => if is_Exception e then handler e tr' else (inl e, tr')
        end.

(** [bedrock_runtime]: given [modelId] and [body], either an exception or
    the value [json.loads(response.get('body').read().decode('utf-8'))]. *)
Definition client : Type := str → str → result json.

(** *** Dictionary and sequence operations *)

Fixpoint items_get (items : list (str * json)) (k : str) : option json :=
  match items with
  | [] => None
  | (k', v) :: items' => if decide (k' = k) then Some v else items_get items' k
  end.

(** [d.get(k, default)] *)
Definition py_get (d : json) (k : str) (default : json) : result json :=
  match d with
  | JDict items =>
      inr (match items_get items k with Some v => v | None => default end)
  | _ => inl AttributeError
  end.

(** [v[0]] *)
Definition py_item0 (v : json) : result json :=
  match v with
  | JList (x :: _) => inr x
  | JList [] => inl IndexError
  | JStr (Str c _) => inr (JStr (Str c EmptyStr))
  | JStr EmptyStr => inl IndexError
  | JDict _ => inl KeyError
  | _ => inl TypeError
  end.

(** [v[k]] for a string [k] *)
Definition py_getitem (v : json) (k : str) : result json :=
  match v with
  | JDict items =>
      match items_get items k with Some x => inr x | None => inl KeyError end
  | _ => inl TypeError
  end.

Definition is_str_eq (k : str) (v : json) : bool :=
  match v with JStr s => bool_decide (s = k) | _ => false end.

(** [k in v] for a string [k] *)
Definition py_in (k : str) (v : json) : result bool :=
  match v with
  | JDict items =>
      inr (match items_get items k with Some _ => true | None => false end)
  | JList l => inr (existsb (is_str_eq k) l)
  | JStr s => inr (PyStr.contains s k)
  | _ => inl TypeError
  end.

Definition newline : str := Str 10%N EmptyStr.

Definition warning : str :=
  "⚠️ Bedrock runtime client not available or no model selected. Please configure AWS properly.".

Definition troubleshooting : str :=
  newline ++ newline ++ "Troubleshooting tips:" ++ newline
  ++ "1. Check if you have access to the selected model" ++ newline
  ++ "2. Verify your AWS credentials have proper permissions" ++ newline
  ++ "3. Make sure Bedrock is available in your region".

(** *** The four request bodies (the objects handed to [json.dumps]) *)

Definition claude_body (prompt : str) : json :=
  JDict [ ("anthropic_version", JStr "bedrock-2023-05-31");
          ("max_tokens", JInt 2000);
          ("messages",
            JList [ JDict [ ("role", JStr "user"); ("content", JStr prompt) ] ]) ].

Definition titan_body (prompt : str) : json :=
  JDict [ ("inputText", JStr prompt);
          ("textGenerationConfig",
            JDict [ ("maxTokenCount", JInt 2000);
                    ("temperature", JFloat "0.7");
                    ("topP", JFloat "0.9") ]) ].

Definition llama_body (prompt : str) : json :=
  JDict [ ("prompt", JStr prompt);
          ("max_gen_len", JInt 2000);
          ("temperature", JFloat "0.7");
          ("top_p", JFloat "0.9") ].

Definition generic_body (prompt : str) : json :=
  JDict [ ("prompt", JStr prompt); ("max_tokens", JInt 2000) ].

(** ["claude" in model_id.lower()] and its siblings *)
Definition mentions (model_id family : str) : bool :=
  PyStr.contains (PyStr.lower model_id) family.

(** The first [if]/[elif] chain. *)
Definition request_object (prompt model_id : str) : json :=
  if mentions model_id "claude" then claude_body prompt
  else if mentions model_id "titan" then titan_body prompt
  else if mentions model_id "llama" then llama_body prompt
  else generic_body prompt.

Section Adapter.

(** [json.dumps(obj)], [json.dumps(obj, indent=2)] and [str(e)]: the text
    they produce is not fixed here. *)
Variable dumps : json → str.
Variable dumps_indent2 : json → str.
Variable str_of_exn : exn → str.

(** [response_body.get("content", [{}])[0].get("text", "No content returned")] *)
Definition claude_text (response_body : json) : result json :=
  content ← py_get response_body "content" (JList [JDict []]);
  first ← py_item0 content;
  py_get first "text" (JStr "No content returned").

(** [response_body.get("results", [{}])[0].get("outputText", "No content returned")] *)
Definition titan_text (response_body : json) : result json :=
  results ← py_get response_body "results" (JList [JDict []]);
  first ← py_item0 results;
  py_get first "outputText" (JStr "No content returned").

(** The generic fallback of the second chain. *)
Definition generic_text (response_body : json) : result json :=
  has_generated ← py_in "generated_text" response_body;
  if (has_generated : bool) then py_getitem response_body "generated_text"
  else
    has_completion ← py_in "completion" response_body;
    if (has_completion : bool) then py_getitem response_body "completion"
    else mret (JStr ("Response received but format unknown: "
                     ++ dumps_indent2 response_body)).

(** The second [if]/[elif] chain. *)
Definition extract_response (model_id : str) (response_body : json)
    : result json :=
  if mentions model_id "claude" then claude_text response_body
  else if mentions model_id "titan" then titan_text response_body
  else generic_text response_body.

(** [bedrock_runtime.invoke_model(modelId=model_id, body=body, ...)] followed
    by reading and parsing the response body. *)
Definition invoke_model (rt : client) (model_id body : str) : M json :=
  _ ← log (InvokeModel model_id body) ;
  lift (rt model_id body).

Definition json_dumps (obj : json) : M str :=
  _ ← log (Dumps obj) ;
  mret (dumps obj).

(** [call_bedrock_model(prompt, model_id)], with the global
    [bedrock_runtime] as first argument.  [model_id] is [None] or a string;
    [None] and the empty string are the falsy ones. *)
Definition call_bedrock_model (bedrock_runtime : option client)
    (prompt : str) (model_id : option str) : M json :=
  match bedrock_runtime, model_id return M json with
  | None, _ | _, None | _, Some EmptyStr => mret (JStr warning)
  | Some rt, Some model_id =>
      try_except
        (body ← json_dumps (request_object prompt model_id);
         response_body ← invoke_model rt model_id body;
         lift (extract_response model_id response_body))
        (λ e, mret (JStr ("Error calling model: " ++ str_of_exn e
                          ++ troubleshooting)))
  end.

End Adapter.

(** Reading a value inside another by a path of dictionary keys and list
    indices; used to state what the adapter reads and writes. *)
Inductive step : Type := Key (k : str) | Idx (i : nat).

Fixpoint at_path (path : list step) (v : json) : option json :=
  match path with
  | [] => Some v
  | Key k :: path' =>
      match v with
      | JDict items =>
          match items_get items k with
          | Some x => at_path path' x
          | None => None
          end
      | _ => None
      end
  | Idx i :: path' =>
      match v with
      | JList l =>
          match l !! i with Some x => at_path path' x | None => None end
      | _ => None
      end
  end.

Definition is_string (v : json) : Prop := ∃ s, v = JStr s.

(** The exceptions that reading a field of the response can raise. *)
Definition reading_errors : list exn :=
  [AttributeError; IndexError; KeyError; TypeError].

End Bedrock.

(** ** Notions used to state the properties *)

(** [text[q : q + len(m)] == m]: the marker [m] occurs in [text] at offset [q]. *)
Definition occurs_at (text m : str) (q : nat) : Prop :=
  PyStr.slice text q (q + PyStr.len m) = m.

(** Some declared marker has its first occurrence at offset [p]. *)
Definition boundary (l : marker_list) (text : str) (p : nat) : Prop :=
  ∃ m k, (m, k) ∈ l ∧ PyStr.find text m = Some p.

(** An occurrence of [b] could start [d] characters into an occurrence of
    [a]: what is left of [a] from [d] on and [b] agree as far as both go. *)
Definition compatible (a b : str) (d : nat) : bool :=
  PyStr.startswith (PyStr.slice_from a d) b || PyStr.startswith b (PyStr.slice_from a d).

(** No marker is empty, no occurrence of a marker can start inside an
    occurrence of a marker, and no two different markers can start at the
    same offset. *)
Definition overlap_free (ms : list str) : bool :=
  forallb (λ a,
    Nat.ltb 0 (PyStr.len a) &&
    forallb (λ b,
      forallb (λ d, (Nat.eqb d 0 && bool_decide (a = b)) || negb (compatible a b d))
        (seq 0 (PyStr.len a))) ms) ms.

(** A marker list whose markers are distinct and cannot overlap, and whose
    keys are distinct. *)
Definition separated (l : marker_list) : Prop :=
  NoDup l.*1 ∧ NoDup l.*2 ∧ overlap_free l.*1 = true.

(** The occurrence of [m] at [q] lies inside the slice stored for the
    found marker [m'] that precedes it: the slice starts at the end of the
    first occurrence of [m'], no later than [q], and runs to [e], past the
    occurrence; [e] is the end of the text or a first occurrence, and no
    first occurrence lies between [m'] and [e]. *)
Definition swallowed (l : marker_list) (text : str)
    (result : gmap str str) (m : str) (q : nat) : Prop :=
  ∃ m' k' p' e,
    (m', k') ∈ l ∧ PyStr.find text m' = Some p' ∧
    p' + PyStr.len m' ≤ q ∧ q + PyStr.len m ≤ e ∧
    (e = PyStr.len text ∨ boundary l text e) ∧
    (∀ p2, boundary l text p2 → ¬ (p' < p2 < e)) ∧
    result !! k' =
      Some (PyStr.strip (PyStr.slice text (p' + PyStr.len m') e)).

(** Sorted by position: every entry is at or before all later entries. *)
Inductive pos_sorted : list found_marker → Prop :=
  | pos_sorted_nil : pos_sorted []
  | pos_sorted_cons x l :
      Forall (λ y, fm_pos x ≤ fm_pos y) l → pos_sorted l → pos_sorted (x :: l).

(** The slice the corrections parser stores for an entry of [found_markers]
    that is followed by the entries [rest]. *)
Definition slice_until (text : str) (start : nat) (rest : list found_marker)
    : str :=
  match rest with
  | [] => PyStr.slice_from text start
  | y :: _ => PyStr.slice text start (fm_pos y)
  end.

(** Where the slice of [parse_evaluation_results] for [marker] ends. *)
Definition section_end (text : str) (l : marker_list) (marker : str)
    (start_idx : nat) : nat :=
  match Evaluation.next_indices text (Evaluation.next_markers text l marker) start_idx with
  | [] => PyStr.len text
  | i :: rest => Evaluation.list_min i rest
  end.

(** No found marker starts exactly where the first occurrence of a found
    marker ends. *)
Definition adjacent_free (l : marker_list) (text : str) : Prop :=
  ∀ m1 k1 p1 m2 k2 p2,
    (m1, k1) ∈ l → (m2, k2) ∈ l →
    PyStr.find text m1 = Some p1 → PyStr.find text m2 = Some p2 →
    p2 ≠ p1 + PyStr.len m1.

(** The three section splitters of the program, their marker lists and
    what they compute; [run_with] is the same code over another marker
    list. *)
Inductive splitter : Type :=
  | CorrectionsParser      (* lines 319-354, in [analyze_user_text_enhanced] *)
  | EvaluationParser       (* [parse_evaluation_results], line 584 *)
  | EvaluationParser1323.  (* [parse_evaluation_results], line 1323 *)

Definition declared (s : splitter) : marker_list :=
  match s with
  | CorrectionsParser => Corrections.sections_to_extract
  | EvaluationParser | EvaluationParser1323 => Evaluation.section_markers
  end.

Definition run_with (s : splitter) (l : marker_list) (text : str)
    : gmap str str :=
  match s with
  | CorrectionsParser => Corrections.split_sections Corrections.fallback l text
  | EvaluationParser => Evaluation.parse_with (Some Evaluation.fallback) l text
  | EvaluationParser1323 => Evaluation.parse_with None l text
  end.

Definition run (s : splitter) (text : str) : gmap str str :=
  match s with
  | CorrectionsParser => Corrections.correction_sections text
  | EvaluationParser => Evaluation.parse_evaluation_results text
  | EvaluationParser1323 => Evaluation.parse_evaluation_results_1323 text
  end.

(** The characters [c] with [c.isspace()], listed. *)
Definition whitespace : list char :=
  [ 9; 10; 11; 12; 13; 28; 29; 30; 31; 32; 133; 160; 5760;
    8192; 8193; 8194; 8195; 8196; 8197; 8198; 8199; 8200; 8201; 8202;
    8232; 8233; 8239; 8287; 12288 ]%N.

(** The no-break space U+00A0 and the ideographic space U+3000. *)
Definition no_break_space : str := Str 160%N EmptyStr.
Definition ideographic_space : str := Str 12288%N EmptyStr.

(** The markers of the example of the specification. *)
Definition abc : marker_list := [("A:", "A"); ("B:", "B"); ("C:", "C")].

(** The paths at which the adapter reads the text of a response. *)
Definition text_paths : list (list Bedrock.step) :=
  [ [Bedrock.Key "content"; Bedrock.Idx 0; Bedrock.Key "text"];
    [Bedrock.Key "results"; Bedrock.Idx 0; Bedrock.Key "outputText"];
    [Bedrock.Key "generated_text"];
    [Bedrock.Key "completion"] ].

(** Clients, a serializer and a rendering of exceptions for concrete
    calls: [claude_client] answers every request with a claude-shaped
    response, [odd_client] with a response that holds a number where the
    text is expected. *)
Definition claude_client : Bedrock.client := λ _ _,
  inr (Bedrock.JDict
         [ ("content",
             Bedrock.JList
               [ Bedrock.JDict [ ("type", Bedrock.JStr "text");
                                 ("text", Bedrock.JStr "Bonjour") ] ]) ]).

Definition odd_client : Bedrock.client := λ _ _,
  inr (Bedrock.JDict
         [ ("content",
             Bedrock.JList [ Bedrock.JDict [ ("text", Bedrock.JInt 42) ] ]) ]).

(** A client whose call is interrupted from the keyboard, and one that is
    refused access. *)
Definition interrupted_client : Bedrock.client := λ _ _,
  inl Bedrock.KeyboardInterrupt.

Definition denied_client : Bedrock.client := λ _ _,
  inl (Bedrock.ClientException "AccessDeniedException").

Definition dumps0 : Bedrock.json → str := λ _, "{}".
Definition str0 : Bedrock.exn → str := λ _, "failed".

(** ** Notions used to state the further properties *)

(** [v] is a contiguous part of [s]. *)
Definition part_of (v s : str) : Prop :=
  ∃ pre post, s = pre ++ v ++ post.

(** A string that does not begin with whitespace. *)
Definition no_leading_space (s : str) : Prop :=
  match s with
  | Str c _ => PyStr.isspace c = false
  | EmptyStr => True
  end.

(** * Properties *)

Local Open Scope list_scope.

(** ** Facts about the string primitives *)

Section StringFacts.

Import PyStr.

(** [isspace] accepts the twenty-nine whitespace characters of Python and
    no other. *)
Lemma isspace_whitespace c : isspace c = true ↔ c ∈ whitespace.
Proof.
  unfold isspace, whitespace. split.
  - rewrite !orb_true_iff, !andb_true_iff, !N.leb_le, !N.eqb_eq, !elem_of_cons.
    lia.
  - intros H. repeat (apply elem_of_cons in H as [-> | H]; [done|]).
    by apply elem_of_nil in H.
Qed.

Lemma slice_from_0 s : slice_from s 0 = s.
Proof. by destruct s. Qed.

Lemma slice_from_empty n : slice_from "" n = "".
Proof. by destruct n. Qed.

Lemma slice_from_add s a b : slice_from (slice_from s a) b = slice_from s (a + b).
Proof.
  revert s; induction a as [|a IH]; intros s; simpl.
  - by rewrite slice_from_0.
  - destruct s as [|c s]; [by rewrite slice_from_empty | apply IH].
Qed.

Lemma length_slice_from s a : PyStr.len (slice_from s a) = PyStr.len s - a.
Proof.
  revert s; induction a as [|a IH]; intros [|c s]; simpl; auto.
Qed.

Lemma slice_to_all s n : PyStr.len s ≤ n → slice_to s n = s.
Proof.
  revert n; induction s as [|c s IH]; intros [|n] H; simpl in *; try done; try lia.
  f_equal. apply IH. lia.
Qed.

(** [s[a:]] is [s[a:len(s)]]. *)
Lemma slice_from_slice s a : slice_from s a = slice s a (PyStr.len s).
Proof.
  unfold slice. symmetry. apply slice_to_all. rewrite length_slice_from. lia.
Qed.

Lemma startswith_length s m : startswith s m = true → PyStr.len m ≤ PyStr.len s.
Proof.
  revert s; induction m as [|a m IH]; intros [|b s] H; simpl in *; try done; try lia.
  case_decide; [|done]. apply IH in H. lia.
Qed.

Lemma startswith_slice_to s m : startswith s m = true ↔ slice_to s (PyStr.len m) = m.
Proof.
  revert s; induction m as [|a m IH]; intros [|b s]; simpl; try done.
  case_decide as Hab.
  - subst. rewrite IH. split; [by intros -> | by intros [= ->]].
  - split; [done | intros [= ? ?]; congruence].
Qed.

(** Two prefixes of one string: one is a prefix of the other. *)
Lemma startswith_comparable s a b :
  startswith s a = true → startswith s b = true →
  startswith a b = true ∨ startswith b a = true.
Proof.
  revert a b; induction s as [|c s IH]; intros [|x a] [|y b] Ha Hb; simpl in *;
    try done; auto.
  destruct (decide (x = c)) as [->|]; [|done].
  destruct (decide (y = c)) as [->|]; [|done].
  rewrite decide_True by done. auto.
Qed.

Lemma startswith_overlap s a b d :
  startswith s a = true → startswith (slice_from s d) b = true →
  d < PyStr.len a → compatible a b d = true.
Proof.
  revert s a; induction d as [|d IH]; intros s a Ha Hb Hd.
  - unfold compatible. rewrite slice_from_0 in *.
    apply orb_true_iff. by eapply startswith_comparable.
  - destruct a as [|x a]; simpl in Hd; [lia|].
    destruct s as [|y s]; simpl in Ha; [done|].
    destruct (decide (x = y)); [|done]. simpl in Hb, Hd.
    unfold compatible; simpl. apply (IH s a Ha Hb). lia.
Qed.

Lemma find_from_eq s m i :
  find_from s m i =
    if startswith s m then Some i
    else match s with "" => None | Str _ s' => find_from s' m (S i) end.
Proof. by destruct s. Qed.

Lemma find_from_shift s m i : find_from s m i = (λ p, i + p) <$> find_from s m 0.
Proof.
  revert i; induction s as [|c s IH]; intros i;
    rewrite (find_from_eq _ m i), (find_from_eq _ m 0).
  - destruct (startswith "" m); simpl; [f_equal; lia | done].
  - destruct (startswith (Str c s) m); simpl; [f_equal; lia|].
    rewrite (IH (S i)), (IH 1). destruct (find_from s m 0); simpl; [f_equal; lia | done].
Qed.

Lemma find_cons c s m :
  find (Str c s) m =
    if startswith (Str c s) m then Some 0 else S <$> find s m.
Proof.
  unfold find. rewrite find_from_eq.
  destruct (startswith (Str c s) m) eqn:E; [done|].
  rewrite find_from_shift. by destruct (find_from s m 0).
Qed.

(** [find] returns an occurrence, inside the text, and the lowest one. *)
Lemma find_Some s m p :
  find s m = Some p →
  startswith (slice_from s p) m = true ∧ p + PyStr.len m ≤ PyStr.len s ∧
  ∀ q, q < p → startswith (slice_from s q) m = false.
Proof.
  revert p; induction s as [|c s IH]; intros p.
  - unfold find. rewrite find_from_eq. destruct (startswith "" m) eqn:E; [|done].
    intros [= <-]. rewrite slice_from_0. split; [done|]. split; [|lia].
    apply startswith_length in E. simpl in *. lia.
  - rewrite find_cons. destruct (startswith (Str c s) m) eqn:E.
    + intros [= <-]. rewrite slice_from_0. split; [done|]. split; [|lia].
      apply startswith_length in E. lia.
    + destruct (find s m) as [p'|] eqn:F; [|done]. intros [= <-].
      destruct (IH p' eq_refl) as (H1 & H2 & H3). simpl.
      split; [done|]. split; [lia|]. intros [|q] Hq; [done|].
      simpl. apply H3. lia.
Qed.

Lemma find_None s m q : find s m = None → startswith (slice_from s q) m = false.
Proof.
  revert q; induction s as [|c s IH]; intros q.
  - unfold find. rewrite find_from_eq, slice_from_empty.
    by destruct (startswith "" m).
  - rewrite find_cons. destruct (startswith (Str c s) m) eqn:E; [done|].
    destruct (find s m) eqn:F; [done|]. intros _. destruct q; [done|].
    simpl. by apply IH.
Qed.

Lemma find_is_Some s m q :
  startswith (slice_from s q) m = true → is_Some (find s m).
Proof.
  intros H. destruct (find s m) eqn:F; [eauto|].
  by rewrite (find_None _ _ q F) in H.
Qed.

Lemma find_le s m p q :
  find s m = Some p → startswith (slice_from s q) m = true → p ≤ q.
Proof.
  intros F H. destruct (find_Some _ _ _ F) as (_ & _ & Hmin).
  destruct (decide (p ≤ q)); [done|]. rewrite Hmin in H; [done | lia].
Qed.

Lemma contains_find s m : contains s m = true ↔ is_Some (find s m).
Proof.
  unfold contains. destruct (find s m) as [p|].
  - split; [eauto | done].
  - split; [done | by intros [? ?]].
Qed.

Lemma contains_false s m : contains s m = false ↔ find s m = None.
Proof. unfold contains. by destruct (find s m). Qed.

End StringFacts.

(** ** Occurrences of separated markers *)

Section Occurrences.

Import PyStr.

Lemma occurs_at_startswith text m q :
  occurs_at text m q ↔ startswith (slice_from text q) m = true.
Proof.
  unfold occurs_at, slice. replace (q + PyStr.len m - q) with (PyStr.len m) by lia.
  symmetry. apply startswith_slice_to.
Qed.

Lemma find_occurs_at text m p : find text m = Some p → occurs_at text m p.
Proof. intros F. apply occurs_at_startswith. by apply find_Some in F as [? _]. Qed.

Lemma overlap_free_spec ms a b d :
  overlap_free ms = true → a ∈ ms → b ∈ ms → d < PyStr.len a →
  compatible a b d = true → d = 0 ∧ a = b.
Proof.
  unfold overlap_free. rewrite forallb_forall. intros H Ha Hb Hd Hc.
  apply list_elem_of_In in Ha, Hb.
  specialize (H a Ha). apply andb_true_iff in H as [_ H].
  rewrite forallb_forall in H.
  specialize (H b Hb). rewrite forallb_forall in H.
  specialize (H d). rewrite in_seq in H.
  rewrite Hc in H. simpl in H. rewrite orb_false_r in H.
  apply andb_true_iff in H as [H1 H2]; [|lia].
  apply Nat.eqb_eq in H1. by apply bool_decide_eq_true in H2.
Qed.

Lemma overlap_free_nonempty ms a :
  overlap_free ms = true → a ∈ ms → 0 < PyStr.len a.
Proof.
  unfold overlap_free. rewrite forallb_forall. intros H Ha.
  apply list_elem_of_In in Ha.
  specialize (H a Ha). apply andb_true_iff in H as [H _].
  by apply Nat.ltb_lt in H.
Qed.

(** Two occurrences of separated markers, the second one not before the
    first: they are one occurrence, or the second starts where the first
    has ended or later. *)
Lemma occurrences_apart ms text a b i j :
  overlap_free ms = true → a ∈ ms → b ∈ ms →
  occurs_at text a i → occurs_at text b j → i ≤ j →
  (i = j ∧ a = b) ∨ (i < j ∧ i + PyStr.len a ≤ j).
Proof.
  intros Hof Ha Hb Hi Hj Hle.
  pose proof (overlap_free_nonempty _ _ Hof Ha) as Hne.
  destruct (decide (i + PyStr.len a ≤ j)) as [|Hlt]; [right; lia | left].
  apply occurs_at_startswith in Hi, Hj.
  replace j with (i + (j - i)) in Hj by lia. rewrite <- slice_from_add in Hj.
  assert (j - i < PyStr.len a) as Hd by lia.
  pose proof (startswith_overlap _ _ _ _ Hi Hj Hd) as Hc.
  destruct (overlap_free_spec _ _ _ _ Hof Ha Hb Hd Hc) as [? ->].
  split; [lia | done].
Qed.

Lemma occurs_at_inside text m q :
  occurs_at text m q → 0 < PyStr.len m →
  q + PyStr.len m ≤ PyStr.len text.
Proof.
  intros H Hq. apply occurs_at_startswith, startswith_length in H.
  rewrite length_slice_from in H. lia.
Qed.

End Occurrences.

(** ** The corrections parser *)

Section CorrectionsFacts.

Import Corrections.

Lemma elem_of_find_markers text l x :
  x ∈ find_markers text l ↔
  ∃ m k p, (m, k) ∈ l ∧ PyStr.find text m = Some p ∧ x = (p, m, k).
Proof.
  induction l as [|[m k] l IH]; simpl.
  - split; [by intros ?%elem_of_nil | by intros (? & ? & ? & ?%elem_of_nil & _)].
  - destruct (PyStr.find text m) as [p|] eqn:F.
    + rewrite elem_of_cons, IH. split.
      * intros [-> | (m' & k' & p' & ? & ? & ?)].
        -- exists m, k, p. by rewrite elem_of_cons; auto.
        -- exists m', k', p'. by rewrite elem_of_cons; auto.
      * intros (m' & k' & p' & [[= -> ->] | ?]%elem_of_cons & F' & ->).
        -- left. congruence.
        -- right. by exists m', k', p'.
    + rewrite IH. split.
      * intros (m' & k' & p' & ? & ? & ?). exists m', k', p'.
        by rewrite elem_of_cons; auto.
      * intros (m' & k' & p' & [[= -> ->] | ?]%elem_of_cons & F' & ->);
          [congruence|]. by exists m', k', p'.
Qed.

Lemma find_markers_keys text l : (find_markers text l).*2 `sublist_of` l.*2.
Proof.
  induction l as [|[m k] l IH]; simpl; [done|].
  destruct (PyStr.find text m); simpl; by constructor.
Qed.

Lemma find_markers_app text l1 l2 :
  find_markers text (l1 ++ l2) = find_markers text l1 ++ find_markers text l2.
Proof.
  induction l1 as [|[m k] l1 IH]; simpl; [done|].
  destruct (PyStr.find text m); simpl; by rewrite IH.
Qed.

Lemma insert_by_pos_perm x l : insert_by_pos x l ≡ₚ x :: l.
Proof.
  induction l as [|y l IH]; simpl; [done|].
  destruct (Nat.leb (fm_pos x) (fm_pos y)); [done|].
  rewrite IH. apply Permutation_swap.
Qed.

Lemma sort_by_pos_perm l : sort_by_pos l ≡ₚ l.
Proof.
  induction l as [|x l IH]; simpl; [done|].
  by rewrite insert_by_pos_perm, IH.
Qed.

Lemma insert_by_pos_sorted x l : pos_sorted l → pos_sorted (insert_by_pos x l).
Proof.
  induction 1 as [|y l Hy Hl IH]; simpl.
  - by repeat constructor.
  - destruct (Nat.leb (fm_pos x) (fm_pos y)) eqn:E.
    + apply Nat.leb_le in E. constructor; [|by constructor].
      constructor; [done|]. eapply Forall_impl; [exact Hy|]. simpl. lia.
    + apply Nat.leb_gt in E. constructor; [|done].
      rewrite insert_by_pos_perm. constructor; [lia | done].
Qed.

Lemma sort_by_pos_sorted l : pos_sorted (sort_by_pos l).
Proof.
  induction l; simpl; [constructor | by apply insert_by_pos_sorted].
Qed.

Lemma pos_sorted_app_inv l1 x l2 :
  pos_sorted (l1 ++ x :: l2) →
  Forall (λ y, fm_pos y ≤ fm_pos x) l1 ∧ Forall (λ y, fm_pos x ≤ fm_pos y) l2.
Proof.
  induction l1 as [|y l1 IH]; simpl; inversion 1 as [|? ? Hall Hs]; subst.
  - by split.
  - destruct (IH Hs) as [? ?]. split; [|done].
    constructor; [|done]. rewrite Forall_app, Forall_cons in Hall. tauto.
Qed.

(** In a sorted list with an entry before [q] and none at [q], the last
    entry before [q] splits the list. *)
Lemma pos_sorted_split l q :
  pos_sorted l → Exists (λ x, fm_pos x < q) l → Forall (λ x, fm_pos x ≠ q) l →
  ∃ l1 x l2, l = l1 ++ x :: l2 ∧ fm_pos x < q ∧ Forall (λ y, q < fm_pos y) l2.
Proof.
  induction 1 as [|x l Hx Hl IH]; intros Hex Hne; [by inversion Hex|].
  apply Forall_cons in Hne as [Hxq Hne].
  destruct (decide (Exists (λ x, fm_pos x < q) l)) as [Hex'|Hno].
  - destruct (IH Hex' Hne) as (l1 & y & l2 & -> & ? & ?).
    by exists (x :: l1), y, l2.
  - apply Exists_cons in Hex as [Hlt | ?]; [|done].
    exists [], x, l. split; [done|]. split; [done|].
    apply not_Exists_Forall in Hno; [|intros ?; apply _].
    rewrite Forall_forall in Hno, Hne. apply Forall_forall. intros y Hy.
    specialize (Hno y Hy). specialize (Hne y Hy). simpl in Hno. lia.
Qed.

Lemma extract_cons text pos marker key rest sections :
  extract text ((pos, marker, key) :: rest) sections =
  extract text rest
    (<[key := PyStr.strip (slice_until text (pos + PyStr.len marker) rest)]>
       sections).
Proof. by destruct rest as [|[[? ?] ?] ?]. Qed.

Lemma extract_notin text found sections k :
  k ∉ found.*2 → extract text found sections !! k = sections !! k.
Proof.
  revert sections; induction found as [|[[p m] k'] found IH]; intros sections Hk;
    [done|].
  rewrite extract_cons. simpl in Hk. rewrite not_elem_of_cons in Hk.
  destruct Hk as [? ?]. rewrite IH by done. by rewrite lookup_insert_ne.
Qed.

Lemma extract_lookup text l1 p m k l2 sections :
  k ∉ l2.*2 →
  extract text (l1 ++ (p, m, k) :: l2) sections !! k =
  Some (PyStr.strip (slice_until text (p + PyStr.len m) l2)).
Proof.
  intros Hk. revert sections; induction l1 as [|[[p' m'] k'] l1 IH]; intros sections.
  - simpl app. rewrite extract_cons, extract_notin by done.
    by rewrite lookup_insert_eq.
  - change (((p', m', k') :: l1) ++ (p, m, k) :: l2)
      with ((p', m', k') :: (l1 ++ (p, m, k) :: l2)).
    rewrite extract_cons. apply IH.
Qed.

Lemma fill_missing_cons fb m k l sections :
  fill_missing fb ((m, k) :: l) sections =
  fill_missing fb l
    (match sections !! k with Some _ => sections | None => <[k := fb]> sections end).
Proof. done. Qed.

Lemma fill_missing_lookup fb l sections k :
  fill_missing fb l sections !! k =
  match sections !! k with
  | Some v => Some v
  | None => if decide (k ∈ l.*2) then Some fb else None
  end.
Proof.
  revert sections; induction l as [|[m k'] l IH]; intros sections.
  - change (fill_missing fb [] sections) with sections.
    destruct (sections !! k); [done|].
    case_decide as H; [by apply elem_of_nil in H | done].
  - rewrite fill_missing_cons, IH. change (((m, k') :: l).*2) with (k' :: l.*2).
    destruct (decide (k' = k)) as [->|Hne].
    + destruct (sections !! k) eqn:E; [by rewrite E|].
      rewrite lookup_insert_eq.
      by rewrite (decide_True (P := k ∈ k :: l.*2)) by (apply elem_of_cons; auto).
    + assert ((match sections !! k' with
               | Some _ => sections | None => <[k':=fb]> sections end) !! k
              = sections !! k) as ->.
      { destruct (sections !! k'); [done|]. by rewrite lookup_insert_ne. }
      destruct (sections !! k); [done|].
      repeat case_decide; try done.
      * exfalso. apply H0, elem_of_cons. auto.
      * exfalso. apply elem_of_cons in H0 as [?|?]; [congruence | done].
Qed.

End CorrectionsFacts.

Section CorrectionsSlices.

Import Corrections.

Lemma NoDup_keys_inj (l : marker_list) m1 m2 k :
  NoDup l.*2 → (m1, k) ∈ l → (m2, k) ∈ l → m1 = m2.
Proof.
  induction l as [|[m0 k0] l IH]; simpl; [by intros _ ?%elem_of_nil|].
  rewrite NoDup_cons, !elem_of_cons. intros [Hk0 Hl] [H1|H1] [H2|H2].
  - congruence.
  - injection H1 as ? ?; subst. exfalso. apply Hk0, list_elem_of_fmap.
    eexists (_, _); split; [|exact H2]; done.
  - injection H2 as ? ?; subst. exfalso. apply Hk0, list_elem_of_fmap.
    eexists (_, _); split; [|exact H1]; done.
  - by apply IH.
Qed.

Lemma elem_of_sorted_found text l x :
  x ∈ sort_by_pos (find_markers text l) ↔
  ∃ m k p, (m, k) ∈ l ∧ PyStr.find text m = Some p ∧ x = (p, m, k).
Proof. by rewrite sort_by_pos_perm, elem_of_find_markers. Qed.

Lemma sorted_found_keys_NoDup text l :
  NoDup l.*2 → NoDup (sort_by_pos (find_markers text l)).*2.
Proof.
  intros Hl. rewrite sort_by_pos_perm.
  eapply sublist_NoDup; [done | apply find_markers_keys].
Qed.

(** A found marker, wherever it stands in the sorted [found_markers],
    gets the slice up to the entry after it. *)
Lemma split_sections_at fb l text l1 p m k l2 :
  NoDup l.*2 →
  sort_by_pos (find_markers text l) = l1 ++ (p, m, k) :: l2 →
  split_sections fb l text !! k =
  Some (PyStr.strip (slice_until text (p + PyStr.len m) l2)).
Proof.
  intros Hl Hs. pose proof (sorted_found_keys_NoDup text l Hl) as Hnd.
  unfold split_sections. rewrite fill_missing_lookup, Hs.
  rewrite Hs, fmap_app, fmap_cons in Hnd.
  apply NoDup_app in Hnd as (_ & _ & Hnd). apply NoDup_cons in Hnd as [Hk _].
  by rewrite extract_lookup.
Qed.

(** Every found marker of a list with distinct keys gets the slice from
    the end of its first occurrence to the next entry of the sorted
    [found_markers], or to the end of the text. *)
Lemma split_sections_slices fb l text m k p :
  NoDup l.*2 → (m, k) ∈ l → PyStr.find text m = Some p →
  ∃ l1 l2,
    sort_by_pos (find_markers text l) = l1 ++ (p, m, k) :: l2 ∧
    split_sections fb l text !! k =
      Some (PyStr.strip (slice_until text (p + PyStr.len m) l2)).
Proof.
  intros Hl Hm Hp.
  assert ((p, m, k) ∈ sort_by_pos (find_markers text l)) as Hin.
  { apply elem_of_sorted_found. by exists m, k, p. }
  apply list_elem_of_split in Hin as (l1 & l2 & Hs).
  exists l1, l2. split; [done|]. by apply (split_sections_at _ _ _ l1).
Qed.

Lemma split_sections_not_found fb l text k :
  k ∉ (find_markers text l).*2 →
  split_sections fb l text !! k = if decide (k ∈ l.*2) then Some fb else None.
Proof.
  intros Hk. unfold split_sections. rewrite fill_missing_lookup.
  rewrite extract_notin; [done|]. by rewrite sort_by_pos_perm.
Qed.

(** A key all of whose markers are absent gets the fallback. *)
Lemma split_sections_absent fb l text m k :
  NoDup l.*2 → (m, k) ∈ l → PyStr.find text m = None →
  split_sections fb l text !! k = Some fb.
Proof.
  intros Hl Hm Hp. rewrite split_sections_not_found.
  - rewrite decide_True; [done|]. apply list_elem_of_fmap. by exists (m, k).
  - intros ((p' & k') & -> & Hx)%list_elem_of_fmap. destruct p' as [p' m'].
    apply elem_of_find_markers in Hx as (m2 & k2 & p2 & Hin & Hf & [= -> -> ->]).
    simpl in *. assert (m2 = m) as ->; [|congruence].
    by eapply NoDup_keys_inj.
Qed.

Lemma split_sections_dom fb l text k :
  is_Some (split_sections fb l text !! k) → k ∈ l.*2.
Proof.
  unfold split_sections. rewrite fill_missing_lookup.
  destruct (extract _ _ _ !! k) eqn:E.
  - intros _. destruct (decide (k ∈ (sort_by_pos (find_markers text l)).*2)) as [Hin|Hn].
    + rewrite sort_by_pos_perm in Hin.
      eapply elem_of_sublist; [done | apply find_markers_keys].
    + by rewrite extract_notin, lookup_empty in E.
  - case_decide; [done | by intros [? ?]].
Qed.

End CorrectionsSlices.

Section Swallowing.

Import Corrections.

(** The found marker that precedes a repeated occurrence: it splits the
    sorted [found_markers] into the entries at or before it and the
    entries that start after the repeated occurrence has ended. *)
Lemma preceding_found l text m k p q :
  separated l → (m, k) ∈ l → PyStr.find text m = Some p → p < q →
  occurs_at text m q →
  ∃ l1 p' m' k' l2,
    sort_by_pos (find_markers text l) = l1 ++ (p', m', k') :: l2 ∧
    (m', k') ∈ l ∧ PyStr.find text m' = Some p' ∧
    p' + PyStr.len m' ≤ q ∧
    Forall (λ y, fm_pos y ≤ p') l1 ∧
    Forall (λ y, q + PyStr.len m ≤ fm_pos y) l2 ∧
    q + PyStr.len m ≤ PyStr.len text.
Proof.
  intros (Hm1 & Hk1 & Hof) Hm Hp Hpq Hq.
  assert (m ∈ l.*1) as Hmin by (apply list_elem_of_fmap; by exists (m, k)).
  set (F := sort_by_pos (find_markers text l)).
  assert (Exists (λ x, fm_pos x < q) F) as Hex.
  { apply Exists_exists. exists (p, m, k). split; [|done].
    apply elem_of_sorted_found. by exists m, k, p. }
  assert (Forall (λ x, fm_pos x ≠ q) F) as Hne.
  { apply Forall_forall. intros x (m2 & k2 & p2 & Hin2 & Hf2 & ->)%elem_of_sorted_found.
    unfold fm_pos; simpl. intros ->.
    assert (m2 ∈ l.*1) by (apply list_elem_of_fmap; by exists (m2, k2)).
    destruct (occurrences_apart _ text m2 m q q Hof) as [[_ ->] | [? _]];
      auto using find_occurs_at; [|lia].
    rewrite Hp in Hf2. injection Hf2 as ->. lia. }
  destruct (pos_sorted_split F q (sort_by_pos_sorted _) Hex Hne)
    as (l1 & [[p' m'] k'] & l2 & HF & Hlt & Hl2).
  unfold fm_pos in Hlt; simpl in Hlt.
  assert ((p', m', k') ∈ F) as Hx by (rewrite HF, elem_of_app, elem_of_cons; auto).
  apply elem_of_sorted_found in Hx as (m2 & k2 & p2 & Hin' & Hf' & [= -> -> ->]).
  assert (m2 ∈ l.*1) as Hm2 by (apply list_elem_of_fmap; by exists (m2, k2)).
  exists l1, p2, m2, k2, l2. split; [done|]. split; [done|]. split; [done|].
  pose proof (sort_by_pos_sorted (find_markers text l)) as Hs. fold F in Hs.
  rewrite HF in Hs. apply pos_sorted_app_inv in Hs as [Hs1 _].
  split; [|split; [done|split]].
  - destruct (occurrences_apart _ text m2 m p2 q Hof) as [[? _] | [_ ?]];
      auto using find_occurs_at; lia.
  - apply Forall_forall. intros y Hy. rewrite Forall_forall in Hl2.
    specialize (Hl2 y Hy). simpl in Hl2.
    assert (y ∈ F) as Hy' by (rewrite HF, elem_of_app, elem_of_cons; auto).
    apply elem_of_sorted_found in Hy' as (m3 & k3 & p3 & Hin3 & Hf3 & ->).
    unfold fm_pos in *; simpl in *.
    assert (m3 ∈ l.*1) by (apply list_elem_of_fmap; by exists (m3, k3)).
    destruct (occurrences_apart _ text m m3 q p3 Hof) as [[? _] | [_ ?]];
      auto using find_occurs_at; lia.
  - apply occurs_at_inside; [done|]. by eapply overlap_free_nonempty.
Qed.

Lemma boundary_sorted_found l text p2 :
  boundary l text p2 ↔ ∃ x, x ∈ sort_by_pos (find_markers text l) ∧ fm_pos x = p2.
Proof.
  split.
  - intros (m & k & Hin & Hf). exists (p2, m, k). split; [|done].
    apply elem_of_sorted_found. by exists m, k, p2.
  - intros (x & (m & k & p & Hin & Hf & ->)%elem_of_sorted_found & <-).
    by exists m, k.
Qed.

(** The repeated occurrence ends up inside the slice of the found marker
    before it (corrections parser, separated markers). *)
Lemma split_sections_swallowed fb l text m k p q :
  separated l → (m, k) ∈ l → PyStr.find text m = Some p → p < q →
  occurs_at text m q →
  swallowed l text (split_sections fb l text) m q.
Proof.
  intros Hsep Hm Hp Hpq Hq.
  destruct (preceding_found l text m k p q Hsep Hm Hp Hpq Hq)
    as (l1 & p' & m' & k' & l2 & HF & Hin' & Hf' & Hstart & Hl1 & Hl2 & Hend).
  destruct Hsep as (_ & Hk1 & _).
  pose proof (split_sections_at fb l text l1 p' m' k' l2 Hk1 HF) as Hval.
  pose proof (sort_by_pos_sorted (find_markers text l)) as Hs. rewrite HF in Hs.
  exists m', k', p'. destruct l2 as [|y l2].
  - exists (PyStr.len text). repeat split; try done; [by left| |].
    + intros p2 (x & Hx & <-)%boundary_sorted_found.
      rewrite HF, elem_of_app, elem_of_cons, elem_of_nil in Hx.
      destruct Hx as [Hx | [-> | []]].
      * rewrite Forall_forall in Hl1. specialize (Hl1 x Hx). simpl in Hl1. lia.
      * unfold fm_pos; simpl. lia.
    + rewrite Hval. simpl. by rewrite slice_from_slice.
  - exists (fm_pos y). apply Forall_cons in Hl2 as [Hy Hl2].
    repeat split; try done.
    + right. apply boundary_sorted_found. exists y. split; [|done].
      rewrite HF, elem_of_app, !elem_of_cons. auto.
    + intros p2 (x & Hx & <-)%boundary_sorted_found.
      rewrite HF, elem_of_app, !elem_of_cons in Hx.
      destruct Hx as [Hx | [-> | [-> | Hx]]].
      * rewrite Forall_forall in Hl1. specialize (Hl1 x Hx). simpl in Hl1. lia.
      * unfold fm_pos; simpl. lia.
      * lia.
      * replace (l1 ++ (p', m', k') :: y :: l2)
          with ((l1 ++ [(p', m', k')]) ++ y :: l2) in Hs by by rewrite <- app_assoc.
        apply pos_sorted_app_inv in Hs as [_ Hs].
        rewrite Forall_forall in Hs. specialize (Hs x Hx). simpl in Hs. lia.
Qed.

End Swallowing.

(** ** The evaluation parsers *)

Section EvaluationFacts.

Import Evaluation.

Lemma list_min_spec x l :
  list_min x l ∈ x :: l ∧ Forall (λ y, list_min x l ≤ y) (x :: l).
Proof.
  unfold list_min. revert x; induction l as [|y l IH]; intros x; simpl.
  - split; [apply elem_of_cons; auto | by repeat constructor].
  - destruct (IH (Nat.min x y)) as [Hin Hall].
    apply Forall_cons in Hall as [Hxy Hall]. split.
    + apply elem_of_cons in Hin as [Hin | Hin].
      * rewrite Hin. destruct (Nat.min_spec x y) as [[_ ->] | [_ ->]];
          rewrite !elem_of_cons; auto.
      * rewrite !elem_of_cons; auto.
    + repeat constructor; [lia | lia | done].
Qed.

Lemma elem_of_next_markers text l m m2 :
  m2 ∈ next_markers text l m ↔
  m2 ∈ l.*1 ∧ m2 ≠ m ∧ is_Some (PyStr.find text m2).
Proof.
  unfold next_markers. rewrite list_elem_of_filter, contains_find. tauto.
Qed.

Lemma elem_of_next_indices text ms start x :
  x ∈ next_indices text ms start ↔
  ∃ m2, m2 ∈ ms ∧ PyStr.find text m2 = Some x ∧ start < x.
Proof.
  induction ms as [|m ms IH]; simpl.
  - split; [by intros ?%elem_of_nil | by intros (? & ?%elem_of_nil & _)].
  - destruct (PyStr.find text m) as [i|] eqn:F.
    + destruct (Nat.ltb start i) eqn:E.
      * apply Nat.ltb_lt in E. rewrite elem_of_cons, IH. split.
        -- intros [-> | (m2 & ? & ? & ?)].
           ++ exists m. rewrite elem_of_cons. auto.
           ++ exists m2. rewrite elem_of_cons. auto.
        -- intros (m2 & [-> | ?]%elem_of_cons & F2 & ?).
           ++ left. congruence.
           ++ right. by exists m2.
      * apply Nat.ltb_ge in E. rewrite IH. split.
        -- intros (m2 & ? & ? & ?). exists m2. rewrite elem_of_cons. auto.
        -- intros (m2 & [-> | ?]%elem_of_cons & F2 & ?).
           ++ rewrite F in F2. injection F2 as ->. lia.
           ++ by exists m2.
    + rewrite IH. split.
      * intros (m2 & ? & ? & ?). exists m2. rewrite elem_of_cons. auto.
      * intros (m2 & [-> | ?]%elem_of_cons & F2 & ?); [congruence|].
        by exists m2.
Qed.

(** The stored value is the trimmed slice from the end of the marker to
    [section_end]. *)
Lemma section_text_eq text l m p :
  section_text text l m p =
  PyStr.strip (PyStr.slice text (p + PyStr.len m)
                 (section_end text l m (p + PyStr.len m))).
Proof.
  unfold section_text, section_end.
  destruct (next_markers text l m) as [|m2 ms].
  - by rewrite slice_from_slice.
  - destruct (next_indices text (m2 :: ms) (p + PyStr.len m));
      [by rewrite slice_from_slice | done].
Qed.

(** [section_end] is the end of the text when no other found marker starts
    after [start]; otherwise it is the lowest first occurrence, after
    [start], of another found marker. *)
Lemma section_end_spec text l m start :
  let e := section_end text l m start in
  (e = PyStr.len text ∧
   ∀ m2 p2, m2 ∈ l.*1 → m2 ≠ m → PyStr.find text m2 = Some p2 → p2 ≤ start) ∨
  (start < e ∧
   (∃ m2, m2 ∈ l.*1 ∧ m2 ≠ m ∧ PyStr.find text m2 = Some e) ∧
   ∀ m2 p2, m2 ∈ l.*1 → m2 ≠ m → PyStr.find text m2 = Some p2 →
            start < p2 → e ≤ p2).
Proof.
  intros e. unfold e, section_end.
  destruct (next_indices text (next_markers text l m) start) as [|i rest] eqn:E.
  - left. split; [done|]. intros m2 p2 H1 H2 H3.
    destruct (decide (p2 ≤ start)) as [|Hgt]; [done|]. exfalso.
    assert (p2 ∈ next_indices text (next_markers text l m) start) as Hin.
    { apply elem_of_next_indices. exists m2. split; [|split; [done | lia]].
      apply elem_of_next_markers. eauto. }
    rewrite E in Hin. by apply elem_of_nil in Hin.
  - right. destruct (list_min_spec i rest) as [Hin Hall].
    rewrite <- E in Hin.
    apply elem_of_next_indices in Hin as (m2 & Hm2 & Hf & Hlt).
    apply elem_of_next_markers in Hm2 as (? & ? & _).
    split; [done|]. split; [by exists m2|].
    intros m3 p3 H1 H2 H3 H4. rewrite Forall_forall in Hall. apply Hall.
    rewrite <- E. apply elem_of_next_indices. exists m3. split; [|done].
    apply elem_of_next_markers. eauto.
Qed.

Lemma loop_body_ne missing text all sections m k k' :
  k ≠ k' → loop_body missing text all sections (m, k) !! k' = sections !! k'.
Proof.
  intros Hne. unfold loop_body.
  destruct (PyStr.contains text m), (PyStr.find text m), missing;
    by rewrite ?lookup_insert_ne.
Qed.

Lemma loop_body_eq missing text all sections m k :
  loop_body missing text all sections (m, k) !! k =
  match PyStr.find text m with
  | Some p => Some (section_text text all m p)
  | None => match missing with Some fb => Some fb | None => sections !! k end
  end.
Proof.
  unfold loop_body, PyStr.contains.
  destruct (PyStr.find text m), missing; by rewrite ?lookup_insert_eq.
Qed.

Lemma parse_loop_notin missing text all l sections k :
  k ∉ l.*2 → foldl (loop_body missing text all) sections l !! k = sections !! k.
Proof.
  revert sections; induction l as [|[m k'] l IH]; intros sections Hk; [done|].
  simpl in Hk. apply not_elem_of_cons in Hk as [? ?].
  cbn [foldl]. rewrite IH by done. by apply loop_body_ne.
Qed.

Lemma parse_loop_lookup missing text all l sections m k :
  NoDup l.*2 → (m, k) ∈ l →
  foldl (loop_body missing text all) sections l !! k =
  match PyStr.find text m with
  | Some p => Some (section_text text all m p)
  | None => match missing with Some fb => Some fb | None => sections !! k end
  end.
Proof.
  revert sections; induction l as [|[m' k'] l IH]; intros sections Hnd Hin.
  - by apply elem_of_nil in Hin.
  - simpl in Hnd. apply NoDup_cons in Hnd as [Hk' Hnd].
    apply elem_of_cons in Hin as [[= -> ->] | Hin]; cbn [foldl].
    + rewrite parse_loop_notin by done. apply loop_body_eq.
    + rewrite IH by done.
      assert (k' ≠ k).
      { intros ->. apply Hk', list_elem_of_fmap. by exists (m, k). }
      by rewrite loop_body_ne.
Qed.

Lemma parse_with_found missing l text m k p :
  NoDup l.*2 → (m, k) ∈ l → PyStr.find text m = Some p →
  parse_with missing l text !! k = Some (section_text text l m p).
Proof.
  intros Hnd Hin Hf. unfold parse_with.
  by rewrite (parse_loop_lookup _ _ _ _ _ m), Hf.
Qed.

Lemma parse_with_absent missing l text m k :
  NoDup l.*2 → (m, k) ∈ l → PyStr.find text m = None →
  parse_with missing l text !! k = missing.
Proof.
  intros Hnd Hin Hf. unfold parse_with.
  rewrite (parse_loop_lookup _ _ _ _ _ m), Hf by done.
  by destruct missing.
Qed.

Lemma parse_with_dom missing l text k :
  is_Some (parse_with missing l text !! k) → k ∈ l.*2.
Proof.
  intros Hk. destruct (decide (k ∈ l.*2)) as [|Hn]; [done|].
  unfold parse_with in Hk. rewrite parse_loop_notin, lookup_empty in Hk by done.
  by destruct Hk.
Qed.

End EvaluationFacts.

Section EvaluationSwallowing.

Import Evaluation.

(** The repeated occurrence ends up inside the slice of the found marker
    before it (evaluation parsers, separated markers). *)
Lemma parse_with_swallowed missing l text m k p q :
  separated l → (m, k) ∈ l → PyStr.find text m = Some p → p < q →
  occurs_at text m q →
  swallowed l text (parse_with missing l text) m q.
Proof.
  intros Hsep Hm Hp Hpq Hq.
  destruct (preceding_found l text m k p q Hsep Hm Hp Hpq Hq)
    as (l1 & p' & m' & k' & l2 & HF & Hin' & Hf' & Hstart & Hl1 & Hl2 & Hend).
  destruct Hsep as (_ & Hk1 & Hof).
  assert (0 < PyStr.len m) as Hlen.
  { eapply overlap_free_nonempty; [done|]. apply list_elem_of_fmap. by exists (m, k). }
  pose proof (parse_with_found missing l text m' k' p' Hk1 Hin' Hf') as Hval.
  rewrite section_text_eq in Hval.
  (* every first occurrence is at or before [p'], or after the repeat *)
  assert (∀ m3 k3 p3, (m3, k3) ∈ l → PyStr.find text m3 = Some p3 →
            (p3 ≤ p' ∨ (m3 ≠ m' ∧ q + PyStr.len m ≤ p3))) as Hpos.
  { intros m3 k3 p3 Hin3 Hf3.
    assert ((p3, m3, k3) ∈ Corrections.sort_by_pos (Corrections.find_markers text l)) as Hx.
    { apply elem_of_sorted_found. by exists m3, k3, p3. }
    rewrite HF, elem_of_app, elem_of_cons in Hx. destruct Hx as [Hx | [Hx | Hx]].
    - left. rewrite Forall_forall in Hl1. apply (Hl1 _ Hx).
    - left. injection Hx as -> _ _. lia.
    - right. rewrite Forall_forall in Hl2. specialize (Hl2 _ Hx).
      unfold fm_pos in Hl2; simpl in Hl2. split; [|done].
      intros ->. rewrite Hf' in Hf3. injection Hf3 as ->. lia. }
  exists m', k', p', (section_end text l m' (p' + PyStr.len m')).
  destruct (section_end_spec text l m' (p' + PyStr.len m'))
    as [[He Hnone] | (Hlt & (m2 & Hm2 & Hne2 & Hf2) & Hmin)].
  - rewrite He in *. repeat split; try done; [by left|].
    intros p3 (m3 & k3 & Hin3 & Hf3).
    destruct (Hpos m3 k3 p3 Hin3 Hf3) as [? | [Hne3 ?]]; [lia|].
    assert (p3 ≤ p' + PyStr.len m'); [|lia].
    apply (Hnone m3); [|done..]. apply list_elem_of_fmap. by exists (m3, k3).
  - apply list_elem_of_fmap in Hm2 as ([m2' k2] & -> & Hin2). simpl in *.
    repeat split; try done.
    + destruct (Hpos m2' k2 _ Hin2 Hf2) as [? | [_ ?]]; lia.
    + right. by exists m2', k2.
    + intros p3 (m3 & k3 & Hin3 & Hf3).
      destruct (Hpos m3 k3 p3 Hin3 Hf3) as [? | [Hne3 ?]]; [lia|].
      assert (section_end text l m' (p' + PyStr.len m') ≤ p3); [|lia].
      apply (Hmin m3); [|done..|lia]. apply list_elem_of_fmap. by exists (m3, k3).
Qed.

End EvaluationSwallowing.

(** ** A marker that is absent from the text *)

Section AbsentMarker.

(** Declaring an absent marker changes nothing for the other keys
    (corrections parser). *)
Lemma split_sections_absent_marker fb l1 m k l2 text k' :
  PyStr.find text m = None → k' ≠ k →
  Corrections.split_sections fb (l1 ++ (m, k) :: l2) text !! k' =
  Corrections.split_sections fb (l1 ++ l2) text !! k'.
Proof.
  intros Hf Hne. unfold Corrections.split_sections.
  rewrite !fill_missing_lookup.
  assert (Corrections.find_markers text (l1 ++ (m, k) :: l2)
          = Corrections.find_markers text (l1 ++ l2)) as ->.
  { rewrite !find_markers_app. simpl. by rewrite Hf. }
  destruct (Corrections.extract _ _ _ !! k'); [done|].
  rewrite !fmap_app, fmap_cons. simpl.
  assert (k' ∈ l1.*2 ++ k :: l2.*2 ↔ k' ∈ l1.*2 ++ l2.*2) as Hiff.
  { rewrite !elem_of_app, elem_of_cons. tauto. }
  destruct (decide (k' ∈ l1.*2 ++ k :: l2.*2)), (decide (k' ∈ l1.*2 ++ l2.*2));
    try done; exfalso; tauto.
Qed.

Lemma next_markers_absent text l1 m k l2 marker :
  PyStr.find text m = None →
  Evaluation.next_markers text (l1 ++ (m, k) :: l2) marker =
  Evaluation.next_markers text (l1 ++ l2) marker.
Proof.
  intros Hf. unfold Evaluation.next_markers.
  rewrite !fmap_app, fmap_cons, !filter_app, filter_cons. simpl.
  apply contains_false in Hf. rewrite decide_False; [done|].
  rewrite Hf. by intros [_ ?].
Qed.

Lemma loop_body_absent missing text l1 m k l2 sections sections' entry k' :
  PyStr.find text m = None →
  sections !! k' = sections' !! k' →
  Evaluation.loop_body missing text (l1 ++ (m, k) :: l2) sections entry !! k' =
  Evaluation.loop_body missing text (l1 ++ l2) sections' entry !! k'.
Proof.
  intros Hf Heq. destruct entry as [m0 k0]. unfold Evaluation.loop_body.
  unfold Evaluation.section_text. rewrite (next_markers_absent _ _ _ _ _ _ Hf).
  destruct (decide (k0 = k')) as [->|].
  - destruct (PyStr.contains text m0), (PyStr.find text m0), missing;
      by rewrite ?lookup_insert_eq.
  - destruct (PyStr.contains text m0), (PyStr.find text m0), missing;
      by rewrite ?lookup_insert_ne.
Qed.

Lemma parse_loop_absent missing text l1 m k l2 l sections sections' k' :
  PyStr.find text m = None →
  sections !! k' = sections' !! k' →
  foldl (Evaluation.loop_body missing text (l1 ++ (m, k) :: l2)) sections l !! k' =
  foldl (Evaluation.loop_body missing text (l1 ++ l2)) sections' l !! k'.
Proof.
  intros Hf. revert sections sections'.
  induction l as [|entry l IH]; intros sections sections' Heq; [done|].
  cbn [foldl]. apply IH. by apply loop_body_absent.
Qed.

(** Declaring an absent marker changes nothing for the other keys
    (evaluation parsers). *)
Lemma parse_with_absent_marker missing l1 m k l2 text k' :
  PyStr.find text m = None → k' ≠ k →
  Evaluation.parse_with missing (l1 ++ (m, k) :: l2) text !! k' =
  Evaluation.parse_with missing (l1 ++ l2) text !! k'.
Proof.
  intros Hf Hne. unfold Evaluation.parse_with.
  rewrite !foldl_app. cbn [foldl].
  apply parse_loop_absent; [done|].
  rewrite loop_body_ne by done.
  by apply parse_loop_absent.
Qed.

End AbsentMarker.

(** ** The two algorithms compared *)

Section Agreement.

Import Corrections Evaluation.

(** Where no found marker starts exactly at the end of another one, the
    slice of [parse_evaluation_results] ends where the slice of the
    corrections parser ends. *)
Lemma section_end_next l text l1 p m k l2 :
  separated l → adjacent_free l text →
  sort_by_pos (find_markers text l) = l1 ++ (p, m, k) :: l2 →
  section_end text l m (p + PyStr.len m) =
  match l2 with [] => PyStr.len text | y :: _ => fm_pos y end.
Proof.
  intros (Hm1 & Hk1 & Hof) Hadj HF.
  pose proof (sort_by_pos_sorted (find_markers text l)) as Hs. rewrite HF in Hs.
  assert ((p, m, k) ∈ sort_by_pos (find_markers text l)) as Hx
    by (rewrite HF, elem_of_app, elem_of_cons; auto).
  apply elem_of_sorted_found in Hx as (m0 & k0 & p0 & Hin & Hf & [= <- <- <-]).
  assert (m ∈ l.*1) as Hm by (apply list_elem_of_fmap; by exists (m, k)).
  (* an entry after [(p, m, k)] is another marker, past the end of [m] *)
  assert (∀ y, y ∈ l2 →
            fm_marker_of y ≠ m ∧ p + PyStr.len m < fm_pos y ∧
            fm_marker_of y ∈ l.*1 ∧
            PyStr.find text (fm_marker_of y) = Some (fm_pos y)) as Hafter.
  { intros y Hy. apply pos_sorted_app_inv in Hs as [_ Hs2].
    rewrite Forall_forall in Hs2. specialize (Hs2 y Hy). simpl in Hs2.
    assert (y ∈ sort_by_pos (find_markers text l)) as Hy'
      by (rewrite HF, elem_of_app, elem_of_cons; auto).
    apply elem_of_sorted_found in Hy' as (m3 & k3 & p3 & Hin3 & Hf3 & ->).
    unfold fm_marker_of, fm_pos in *; simpl in *.
    assert (m3 ∈ l.*1) as Hm3 by (apply list_elem_of_fmap; by exists (m3, k3)).
    assert (m3 ≠ m) as Hne.
    { intros ->. assert (k3 = k) as ->.
      { apply (NoDup_keys_inj (prod_swap <$> l) k3 k m).
        - by rewrite <- list_fmap_compose.
        - apply list_elem_of_fmap. by exists (m, k3).
        - apply list_elem_of_fmap. by exists (m, k). }
      rewrite Hf in Hf3. injection Hf3 as <-.
      pose proof (sorted_found_keys_NoDup text l Hk1) as Hnd.
      rewrite HF, fmap_app, fmap_cons in Hnd.
      apply NoDup_app in Hnd as (_ & _ & Hnd). apply NoDup_cons in Hnd as [Hnk _].
      apply Hnk, list_elem_of_fmap. by exists (p, m, k). }
    split; [done|]. split; [|done].
    destruct (occurrences_apart _ text m m3 p p3 Hof) as [[_ ?] | [_ ?]];
      auto using find_occurs_at; [done|].
    pose proof (Hadj m k p m3 k3 p3 Hin Hin3 Hf Hf3). lia. }
  destruct (section_end_spec text l m (p + PyStr.len m))
    as [[He Hnone] | (Hlt & (m2 & Hm2 & Hne2 & Hf2) & Hmin)].
  - rewrite He. destruct l2 as [|y l2]; [done|]. exfalso.
    destruct (Hafter y) as (? & ? & ? & ?); [apply elem_of_cons; auto|].
    pose proof (Hnone _ _ ltac:(done) ltac:(done) ltac:(done)). lia.
  - apply list_elem_of_fmap in Hm2 as ([m2' k2] & -> & Hin2). simpl in *.
    assert ((section_end text l m (p + PyStr.len m), m2', k2)
              ∈ sort_by_pos (find_markers text l)) as He.
    { apply elem_of_sorted_found.
      by exists m2', k2, (section_end text l m (p + PyStr.len m)). }
    rewrite HF, elem_of_app, elem_of_cons in He. destruct He as [He | [He | He]].
    + apply pos_sorted_app_inv in Hs as [Hs1 _]. rewrite Forall_forall in Hs1.
      specialize (Hs1 _ He). unfold fm_pos in Hs1; simpl in Hs1. lia.
    + injection He as ? ? ?. lia.
    + destruct l2 as [|y l2]; [by apply elem_of_nil in He|].
      destruct (Hafter y) as (? & ? & ? & ?); [apply elem_of_cons; auto|].
      assert (section_end text l m (p + PyStr.len m) ≤ fm_pos y)
        by by apply (Hmin (fm_marker_of y)).
      replace (l1 ++ (p, m, k) :: y :: l2)
        with ((l1 ++ [(p, m, k)]) ++ y :: l2) in Hs by by rewrite <- app_assoc.
      apply pos_sorted_app_inv in Hs as [_ Hs2].
      apply elem_of_cons in He as [<- | He]; [done|].
      rewrite Forall_forall in Hs2. specialize (Hs2 _ He).
      unfold fm_pos in *; simpl in *. lia.
Qed.

(** X5: over separated markers and a text without adjacent markers,
    [parse_evaluation_results] (with the [else] branch) computes what the
    corrections parser computes. *)
Lemma parsers_agree fb l text :
  separated l → adjacent_free l text →
  parse_with (Some fb) l text = split_sections fb l text.
Proof.
  intros Hsep Hadj. pose proof Hsep as (_ & Hk & _). apply map_eq. intros k.
  destruct (decide (k ∈ l.*2)) as [Hin|Hn].
  - apply list_elem_of_fmap in Hin as ([m k'] & -> & Hin). simpl.
    destruct (PyStr.find text m) as [p|] eqn:Hf.
    + destruct (split_sections_slices fb l text m k' p Hk Hin Hf)
        as (l1 & l2 & HF & ->).
      rewrite (parse_with_found _ _ _ m k' p) by done.
      rewrite section_text_eq, (section_end_next l text l1 p m k' l2) by done.
      destruct l2; simpl; [by rewrite slice_from_slice | done].
    + rewrite (parse_with_absent _ _ _ m) by done.
      by rewrite (split_sections_absent _ _ _ m).
  - destruct (parse_with (Some fb) l text !! k) eqn:E1.
    { exfalso. apply Hn. eapply parse_with_dom. by rewrite E1. }
    destruct (split_sections fb l text !! k) eqn:E2; [|done].
    exfalso. apply Hn. eapply split_sections_dom. by rewrite E2.
Qed.

End Agreement.

(** ** The splitters of the program *)

Lemma separated_declared s : separated (declared s).
Proof.
  destruct s; (split; [|split]);
    first [ by vm_compute | apply (bool_decide_unpack _); by vm_compute ].
Qed.

Lemma run_run_with s text : run s text = run_with s (declared s) text.
Proof. by destruct s. Qed.

(** The example of the specification, on the two algorithms. *)
Lemma abc_example_corrections :
  Corrections.split_sections "fallback" abc "A: foo B: bar C: baz"
  = {[ "A" := "foo"; "B" := "bar"; "C" := "baz" ]}.
Proof. by vm_compute. Qed.

Lemma abc_example_evaluation :
  Evaluation.parse_with (Some "fallback") abc "A: foo B: bar C: baz"
  = {[ "A" := "foo"; "B" := "bar"; "C" := "baz" ]}.
Proof. by vm_compute. Qed.

Lemma out_of_order_example_corrections :
  Corrections.split_sections "fallback" abc "B: x A: y"
  = {[ "A" := "y"; "B" := "x"; "C" := "fallback" ]}.
Proof. by vm_compute. Qed.

Lemma out_of_order_example_evaluation :
  Evaluation.parse_with (Some "fallback") abc "B: x A: y"
  = {[ "A" := "y"; "B" := "x"; "C" := "fallback" ]}.
Proof. by vm_compute. Qed.

(** ** What the specification states about the splitters *)

(** X4: the corrections parser slices by first occurrence: over a marker list
    with distinct keys, every marker that occurs in the text gets the
    trimmed substring from
    the end of its first occurrence to the start of the next found marker
    in ascending order of first occurrence, or to the end of the text. *)
Lemma corrections_parser_slices l text m k p :
  NoDup l.*2 → (m, k) ∈ l → PyStr.find text m = Some p →
  ∃ before after,
    Corrections.sort_by_pos (Corrections.find_markers text l)
      = before ++ (p, m, k) :: after ∧
    pos_sorted (before ++ (p, m, k) :: after) ∧
    run_with CorrectionsParser l text !! k =
      Some (PyStr.strip
              (PyStr.slice text (p + PyStr.len m)
                 (match after with
                  | [] => PyStr.len text
                  | next :: _ => fm_pos next
                  end))).
Proof.
  intros Hl Hm Hp.
  destruct (split_sections_slices Corrections.fallback l text m k p Hl Hm Hp)
    as (l1 & l2 & HF & Hval).
  exists l1, l2. split; [done|]. split.
  - rewrite <- HF. apply sort_by_pos_sorted.
  - simpl. rewrite Hval. destruct l2; simpl; [|done].
    by rewrite slice_from_slice.
Qed.

(** C1 at the input [SPELLING EVALUATION:GRAMMAR EVALUATION: ok] of
    [parse_evaluation_results]: the first marker ends at offset 20, where
    the next found marker starts, so the substring between them is empty;
    the parser stores the rest of the text instead, with the second marker
    in it.  The corrections parser, run over the same marker list, stores
    the empty string. *)
Theorem adjacent_marker_not_a_boundary :
  let text := "SPELLING EVALUATION:GRAMMAR EVALUATION: ok" in
  PyStr.find text "SPELLING EVALUATION:" = Some 0 ∧
  PyStr.len "SPELLING EVALUATION:" = 20 ∧
  PyStr.find text "GRAMMAR EVALUATION:" = Some 20 ∧
  PyStr.strip (PyStr.slice text 20 20) = "" ∧
  Evaluation.parse_evaluation_results text !! "spelling"
    = Some "GRAMMAR EVALUATION: ok" ∧
  Evaluation.parse_evaluation_results_1323 text !! "spelling"
    = Some "GRAMMAR EVALUATION: ok" ∧
  run_with CorrectionsParser Evaluation.section_markers text !! "spelling"
    = Some "".
Proof. by vm_compute. Qed.

(** C2, as amended: a key whose marker is absent from the text is bound to
    the fallback string by the corrections parser and by
    [parse_evaluation_results] of line 584, and is left out of the mapping
    by [parse_evaluation_results] of line 1323; every other key is bound as
    it would be, had the absent marker not been declared. *)
Theorem absent_marker_key s text m k :
  (m, k) ∈ declared s → PyStr.find text m = None →
  run s text !! k =
    match s with
    | CorrectionsParser => Some "No corrections needed."
    | EvaluationParser => Some "No evaluation available for this section."
    | EvaluationParser1323 => None
    end ∧
  ∀ l1 l2 k', declared s = l1 ++ (m, k) :: l2 → k' ≠ k →
    run s text !! k' = run_with s (l1 ++ l2) text !! k'.
Proof.
  intros Hm Hf. destruct (separated_declared s) as (_ & Hk & _). split.
  - destruct s; simpl in *.
    + by apply (split_sections_absent _ _ _ m).
    + by apply (parse_with_absent (Some Evaluation.fallback) _ _ m).
    + by apply (parse_with_absent None _ _ m).
  - intros l1 l2 k' Hd Hne. rewrite run_run_with, Hd. destruct s; simpl.
    + by apply split_sections_absent_marker.
    + by apply parse_with_absent_marker.
    + by apply parse_with_absent_marker.
Qed.

Lemma absent_marker_key_witness :
  run EvaluationParser "SPELLING EVALUATION: fine" !! "grammar"
    = Some "No evaluation available for this section." ∧
  ∀ l1 l2 k',
    declared EvaluationParser = l1 ++ ("GRAMMAR EVALUATION:", "grammar") :: l2 →
    k' ≠ "grammar" →
    run EvaluationParser "SPELLING EVALUATION: fine" !! k'
    = run_with EvaluationParser (l1 ++ l2) "SPELLING EVALUATION: fine" !! k'.
Proof.
  apply (absent_marker_key EvaluationParser "SPELLING EVALUATION: fine"
           "GRAMMAR EVALUATION:" "grammar").
  - by apply (bool_decide_unpack _); vm_compute.
  - by vm_compute.
Defined.

(** C2 as stated fails on [parse_evaluation_results] of line 1323: the
    marker of [grammar] is absent and the key is not in the mapping. *)
Lemma absent_marker_key_not_stored :
  ("GRAMMAR EVALUATION:", "grammar") ∈ Evaluation.section_markers ∧
  PyStr.contains "SPELLING EVALUATION: fine" "GRAMMAR EVALUATION:" = false ∧
  Evaluation.parse_evaluation_results_1323 "SPELLING EVALUATION: fine" !! "grammar"
    = None ∧
  Evaluation.parse_evaluation_results_1323 "SPELLING EVALUATION: fine" !! "spelling"
    = Some "fine".
Proof.
  split; [by apply (bool_decide_unpack _); vm_compute|]. by vm_compute.
Qed.

(** C3 at the input [GRAMMAR EVALUATION:SPELLING EVALUATION: x] of
    [parse_evaluation_results], where the markers stand in the order
    opposite to their declaration: by ascending position the marker after
    [GRAMMAR EVALUATION:] is [SPELLING EVALUATION:], at offset 19, where
    the first one ends, yet the value stored for [grammar] runs to the end
    of the text.  The corrections parser, run over the same marker list,
    ends the value at offset 19. *)
Theorem out_of_order_adjacent_marker :
  let text := "GRAMMAR EVALUATION:SPELLING EVALUATION: x" in
  PyStr.find text "GRAMMAR EVALUATION:" = Some 0 ∧
  PyStr.len "GRAMMAR EVALUATION:" = 19 ∧
  PyStr.find text "SPELLING EVALUATION:" = Some 19 ∧
  PyStr.strip (PyStr.slice text 19 19) = "" ∧
  Evaluation.parse_evaluation_results text !! "grammar"
    = Some "SPELLING EVALUATION: x" ∧
  Evaluation.parse_evaluation_results text !! "spelling" = Some "x" ∧
  run_with CorrectionsParser Evaluation.section_markers text !! "grammar"
    = Some "".
Proof. by vm_compute. Qed.

(** C4: when a declared marker occurs again at [q], after its first
    occurrence, [q] is no section boundary: the repeated occurrence lies
    inside the slice stored for the found marker whose first occurrence
    precedes [q] most closely, and that slice runs on to the next first
    occurrence or to the end of the text. *)
Theorem repeated_marker_swallowed s text m k p q :
  (m, k) ∈ declared s → PyStr.find text m = Some p → p < q →
  occurs_at text m q →
  swallowed (declared s) text (run s text) m q.
Proof.
  intros Hm Hp Hpq Hq. pose proof (separated_declared s) as Hsep.
  destruct s; simpl in *.
  - by eapply split_sections_swallowed.
  - by eapply parse_with_swallowed.
  - by eapply parse_with_swallowed.
Qed.

Lemma repeated_marker_swallowed_witness :
  swallowed (declared EvaluationParser)
    "SPELLING EVALUATION: a GRAMMAR EVALUATION: b SPELLING EVALUATION: c"
    (run EvaluationParser
       "SPELLING EVALUATION: a GRAMMAR EVALUATION: b SPELLING EVALUATION: c")
    "SPELLING EVALUATION:" 45.
Proof.
  apply (repeated_marker_swallowed EvaluationParser _ _ "spelling" 0).
  - by apply (bool_decide_unpack _); vm_compute.
  - by vm_compute.
  - lia.
  - by vm_compute.
Defined.

(** The stored value is trimmed as [str.strip] trims: the no-break spaces
    and the ideographic space around a section go, in all three
    splitters. *)
Lemma repeated_marker_unicode_space :
  Evaluation.parse_evaluation_results
    ("SPELLING EVALUATION:" ++ no_break_space ++ "a SPELLING EVALUATION: b"
     ++ no_break_space)%str !! "spelling"
  = Some "a SPELLING EVALUATION: b"%str ∧
  Evaluation.parse_evaluation_results_1323
    ("SPELLING EVALUATION:" ++ ideographic_space ++ "a SPELLING EVALUATION: b"
     ++ ideographic_space)%str !! "spelling"
  = Some "a SPELLING EVALUATION: b"%str ∧
  Corrections.correction_sections
    ("SPELLING CORRECTIONS:" ++ no_break_space ++ "a SPELLING CORRECTIONS: b"
     ++ ideographic_space)%str !! "spelling"
  = Some "a SPELLING CORRECTIONS: b"%str.
Proof. by vm_compute. Qed.

(** C5, as amended: on the empty text the corrections parser and
    [parse_evaluation_results] of line 584 bind every declared key to the
    fallback string, and [parse_evaluation_results] of line 1323 returns
    the empty mapping. *)
Theorem empty_text_result :
  Corrections.correction_sections "" =
    {[ "spelling" := "No corrections needed.";
       "grammar" := "No corrections needed.";
       "coherence" := "No corrections needed.";
       "style" := "No corrections needed.";
       "order" := "No corrections needed.";
       "proposed" := "No corrections needed." ]} ∧
  Evaluation.parse_evaluation_results "" =
    {[ "spelling" := "No evaluation available for this section.";
       "grammar" := "No evaluation available for this section.";
       "style" := "No evaluation available for this section.";
       "coherence" := "No evaluation available for this section.";
       "overall" := "No evaluation available for this section." ]} ∧
  Evaluation.parse_evaluation_results_1323 "" = ∅.
Proof. by vm_compute. Qed.

(** C5 as stated fails on [parse_evaluation_results] of line 1323: on the
    empty text no declared key is bound. *)
Lemma empty_text_no_keys_1323 :
  ("spelling" ∈ (Evaluation.section_markers).*2) ∧
  Evaluation.parse_evaluation_results_1323 "" !! "spelling" = None.
Proof.
  split; [by apply (bool_decide_unpack _); vm_compute | by vm_compute].
Qed.

(** C8: every key of a mapping that a splitter returns is one of the keys
    declared for that splitter. *)
Theorem section_keys_enumerated text :
  dom (Corrections.correction_sections text)
    ⊆ {[ "spelling"; "grammar"; "coherence"; "style"; "order"; "proposed" ]} ∧
  dom (Evaluation.parse_evaluation_results text)
    ⊆ {[ "spelling"; "grammar"; "style"; "coherence"; "overall" ]} ∧
  dom (Evaluation.parse_evaluation_results_1323 text)
    ⊆ ({[ "spelling"; "grammar"; "style"; "coherence"; "overall" ]} : gset str).
Proof.
  split; [|split]; intros k Hk%elem_of_dom;
    [ apply split_sections_dom in Hk | apply parse_with_dom in Hk.. ];
    simpl in Hk; rewrite !elem_of_cons, elem_of_nil in Hk;
    rewrite !elem_of_union, !elem_of_singleton; tauto.
Qed.

(** ** The inference adapter *)

Section AdapterFacts.

Import Bedrock.

Variable dumps : json → str.
Variable dumps_indent2 : json → str.
Variable str_of_exn : exn → str.

(** With a client and a model selected, the call serializes one request
    object, invokes the model once with it, and returns what it reads
    from the response.  An exception raised on the way is turned into the
    diagnostic when it is an instance of [Exception], and escapes when it
    is not. *)
Lemma call_run rt prompt model_id tr :
  model_id ≠ "" →
  call_bedrock_model dumps dumps_indent2 str_of_exn (Some rt) prompt (Some model_id) tr =
  (match rt model_id (dumps (request_object prompt model_id))
           ≫= extract_response dumps_indent2 model_id with
   | inr v => inr v
   | inl e => if is_Exception e
              then inr (JStr ("Error calling model: " ++ str_of_exn e
                              ++ troubleshooting)%str)
              else inl e
   end,
   tr ++ [Dumps (request_object prompt model_id);
          InvokeModel model_id (dumps (request_object prompt model_id))]).
Proof.
  intros Hne. destruct model_id as [|c s]; [done|].
  unfold call_bedrock_model, try_except, json_dumps, invoke_model, log.
  unfold mbind, M_bind, mret, M_ret. simpl.
  rewrite <- app_assoc. simpl.
  destruct (rt (Str c s) (dumps (request_object prompt (Str c s))))
    as [e|response]; simpl; [by destruct (is_Exception e)|].
  unfold mbind, result_bind.
  destruct (extract_response dumps_indent2 (Str c s) response) as [e|v]; simpl;
    [by destruct (is_Exception e) | done].
Qed.

Lemma call_unavailable rt prompt model_id tr :
  rt = None ∨ model_id = None ∨ model_id = Some "" →
  call_bedrock_model dumps dumps_indent2 str_of_exn rt prompt model_id tr = (inr (JStr warning), tr).
Proof.
  intros [-> | [-> | ->]]; [done | by destruct rt | by destruct rt].
Qed.

Lemma items_get_at_path items k v :
  items_get items k = Some v ↔ at_path [Key k] (JDict items) = Some v.
Proof. simpl. by destruct (items_get items k). Qed.

(** What [claude_text] and [titan_text] return, by the shape of the
    response. *)
Lemma get0get_spec r outer inner v :
  (first_field ← (seq ← py_get r outer (JList [JDict []]); py_item0 seq);
   py_get first_field inner (JStr "No content returned")) = inr v →
  v = JStr "No content returned" ∨
  at_path [Key outer; Idx 0; Key inner] r = Some v.
Proof.
  destruct r as [| | | | |l|items]; try done. simpl.
  destruct (items_get items outer) as [seq|] eqn:E; simpl.
  - destruct seq as [| | | |s|l|items']; try done.
    + by destruct s.
    + destruct l as [|x l]; [done|]. simpl.
      destruct x as [| | | | |l'|items']; try done. simpl.
      destruct (items_get items' inner); intros [= <-]; auto.
  - intros [= <-]. auto.
Qed.

Lemma claude_text_spec r v :
  claude_text r = inr v →
  v = JStr "No content returned" ∨
  at_path [Key "content"; Idx 0; Key "text"] r = Some v.
Proof.
  intros H. apply get0get_spec. unfold claude_text in H.
  by destruct (py_get r "content" _) as [|seq]; [|destruct (py_item0 seq)].
Qed.

Lemma titan_text_spec r v :
  titan_text r = inr v →
  v = JStr "No content returned" ∨
  at_path [Key "results"; Idx 0; Key "outputText"] r = Some v.
Proof.
  intros H. apply get0get_spec. unfold titan_text in H.
  by destruct (py_get r "results" _) as [|seq]; [|destruct (py_item0 seq)].
Qed.

Lemma generic_text_spec r v :
  generic_text dumps_indent2 r = inr v →
  v = JStr ("Response received but format unknown: " ++ dumps_indent2 r)%str ∨
  at_path [Key "generated_text"] r = Some v ∨
  at_path [Key "completion"] r = Some v.
Proof.
  unfold generic_text.
  destruct r as [| | | |s|l|items]; try done; simpl.
  - destruct (PyStr.contains s "generated_text"); [done|].
    destruct (PyStr.contains s "completion"); [done|]. intros [= <-]; auto.
  - destruct (existsb _ l); [done|]. simpl.
    destruct (existsb _ l); [done|]. intros [= <-]; auto.
  - destruct (items_get items "generated_text") as [x|]; simpl.
    + intros [= <-]; auto.
    + destruct (items_get items "completion") as [x|]; simpl; intros [= <-]; auto.
Qed.

Lemma at_path_claude response v :
  at_path [Key "content"; Idx 0; Key "text"] response = Some v →
  claude_text response = inr v.
Proof.
  destruct response as [| | | | |l|items]; try done. simpl.
  destruct (items_get items "content") as [seq|] eqn:E; [|done].
  destruct seq as [| | | | |l|]; try done.
  destruct l as [|x l]; [done|]. simpl.
  destruct x as [| | | | | |items']; try done.
  unfold claude_text. simpl. rewrite E. simpl.
  by destruct (items_get items' "text"); [intros [= ->]|].
Qed.

Lemma at_path_titan response v :
  at_path [Key "results"; Idx 0; Key "outputText"] response = Some v →
  titan_text response = inr v.
Proof.
  destruct response as [| | | | |l|items]; try done. simpl.
  destruct (items_get items "results") as [seq|] eqn:E; [|done].
  destruct seq as [| | | | |l|]; try done.
  destruct l as [|x l]; [done|]. simpl.
  destruct x as [| | | | | |items']; try done.
  unfold titan_text. simpl. rewrite E. simpl.
  by destruct (items_get items' "outputText"); [intros [= ->]|].
Qed.


(** C6: with a client and a model selected, the request object and the
    field read from the response are chosen by which of [claude], [titan],
    [llama] occurs in the lower-cased model identifier, tried in that
    order.  [claude]: the anthropic messages body, and [content[0].text]
    of the response.  [titan] (and not [claude]): the [inputText] body,
    and [results[0].outputText].  None of the three: the body
    [{prompt, max_tokens}], and from a response object [generated_text]
    if it has that key, else [completion] if it has that key, else the
    dump of the whole response.  Identifiers that differ only in case get
    the same request object and the same reading.  [outcome] is what the
    call returns or raises; it is a return whenever the client answers
    with such a response. *)
Theorem family_dispatch rt prompt model_id tr :
  model_id ≠ "" →
  ∃ obj outcome,
    call_bedrock_model dumps dumps_indent2 str_of_exn (Some rt) prompt (Some model_id) tr =
      (outcome, tr ++ [Dumps obj; InvokeModel model_id (dumps obj)]) ∧
    (PyStr.contains (PyStr.lower model_id) "claude" = true →
       obj = JDict [ ("anthropic_version", JStr "bedrock-2023-05-31");
                     ("max_tokens", JInt 2000);
                     ("messages",
                       JList [ JDict [ ("role", JStr "user");
                                       ("content", JStr prompt) ] ]) ] ∧
       ∀ response v,
         rt model_id (dumps obj) = inr response →
         at_path [Key "content"; Idx 0; Key "text"] response = Some v →
         outcome = inr v) ∧
    (PyStr.contains (PyStr.lower model_id) "claude" = false →
     PyStr.contains (PyStr.lower model_id) "titan" = true →
       obj = JDict [ ("inputText", JStr prompt);
                     ("textGenerationConfig",
                       JDict [ ("maxTokenCount", JInt 2000);
                               ("temperature", JFloat "0.7");
                               ("topP", JFloat "0.9") ]) ] ∧
       ∀ response v,
         rt model_id (dumps obj) = inr response →
         at_path [Key "results"; Idx 0; Key "outputText"] response = Some v →
         outcome = inr v) ∧
    (PyStr.contains (PyStr.lower model_id) "claude" = false →
     PyStr.contains (PyStr.lower model_id) "titan" = false →
     PyStr.contains (PyStr.lower model_id) "llama" = false →
       obj = JDict [ ("prompt", JStr prompt); ("max_tokens", JInt 2000) ] ∧
       ∀ items,
         rt model_id (dumps obj) = inr (JDict items) →
         outcome =
           inr match items_get items "generated_text" with
               | Some v => v
               | None =>
                   match items_get items "completion" with
                   | Some v => v
                   | None => JStr ("Response received but format unknown: "
                                   ++ dumps_indent2 (JDict items))%str
                   end
               end) ∧
    (∀ other, PyStr.lower other = PyStr.lower model_id →
       request_object prompt other = obj ∧
       ∀ response, extract_response dumps_indent2 other response = extract_response dumps_indent2 model_id response).
Proof.
  intros Hne. eexists _, _. split; [by apply call_run|].
  unfold request_object, extract_response, mentions.
  split; [|split; [|split]].
  - intros ->. split; [done|]. intros response v -> Hv. simpl.
    by rewrite (at_path_claude _ _ Hv).
  - intros -> ->. split; [done|]. intros response v -> Hv. simpl.
    by rewrite (at_path_titan _ _ Hv).
  - intros -> -> ->. split; [done|]. intros items ->. simpl.
    unfold generic_text. simpl.
    destruct (items_get items "generated_text"); simpl; [done|].
    by destruct (items_get items "completion").
  - intros other ->. done.
Qed.

(** Reading the response raises one of four exceptions, all of them
    instances of [Exception]. *)
Lemma py_get_raises d k default e :
  py_get d k default = inl e → e ∈ reading_errors.
Proof. unfold reading_errors. destruct d; intros [= <-]; set_solver. Qed.

Lemma py_item0_raises v e : py_item0 v = inl e → e ∈ reading_errors.
Proof.
  unfold reading_errors.
  destruct v as [| | | |s|l|]; try (intros [= <-]; set_solver).
  - destruct s; intros [= <-]; set_solver.
  - destruct l; intros [= <-]; set_solver.
Qed.

Lemma py_getitem_raises v k e : py_getitem v k = inl e → e ∈ reading_errors.
Proof.
  unfold reading_errors. destruct v as [| | | | | |items]; try (intros [= <-]; set_solver).
  simpl. destruct (items_get items k); intros [= <-]; set_solver.
Qed.

Lemma py_in_raises k v e : py_in k v = inl e → e ∈ reading_errors.
Proof. unfold reading_errors. destruct v; intros [= <-]; set_solver. Qed.

Lemma get0get_raises r outer inner e :
  (first_field ← (seq ← py_get r outer (JList [JDict []]); py_item0 seq);
   py_get first_field inner (JStr "No content returned")) = inl e →
  e ∈ reading_errors.
Proof.
  destruct (py_get r outer _) as [e1|seq] eqn:E1; simpl.
  { intros [= <-]. by eapply py_get_raises. }
  destruct (py_item0 seq) as [e2|x] eqn:E2; simpl.
  { intros [= <-]. by eapply py_item0_raises. }
  apply py_get_raises.
Qed.

Lemma extract_response_raises model_id response e :
  extract_response dumps_indent2 model_id response = inl e → e ∈ reading_errors.
Proof.
  unfold extract_response.
  destruct (mentions model_id "claude"); [|destruct (mentions model_id "titan")].
  - unfold claude_text. intros H. eapply (get0get_raises response "content" "text").
    by destruct (py_get response "content" _) as [|seq]; [|destruct (py_item0 seq)].
  - unfold titan_text. intros H. eapply (get0get_raises response "results" "outputText").
    by destruct (py_get response "results" _) as [|seq]; [|destruct (py_item0 seq)].
  - unfold generic_text.
    destruct (py_in "generated_text" response) as [e1|[]] eqn:E1; simpl.
    + intros [= <-]. by eapply py_in_raises.
    + apply py_getitem_raises.
    + destruct (py_in "completion" response) as [e2|[]] eqn:E2; simpl.
      * intros [= <-]. by eapply py_in_raises.
      * apply py_getitem_raises.
      * done.
Qed.

Lemma reading_errors_caught e : e ∈ reading_errors → is_Exception e = true.
Proof.
  unfold reading_errors. intros H.
  repeat (apply elem_of_cons in H as [-> | H]; [done|]). by apply elem_of_nil in H.
Qed.

(** C7, as amended.  What the call returns or raises, case by case.
    Without a client or a model it returns the warning.  When the client
    raises [e], it returns the diagnostic built from [e] if [e] is an
    instance of [Exception], and [e] escapes if it is not.  When the
    client answers, the call returns: the value the response holds at the
    field of the selected family ([content[0].text] for claude,
    [results[0].outputText] for titan, else [generated_text], else
    [completion]), whatever that value is; and where the response has no
    such field, the default text (claude and titan), the dump of the
    response (other models), or the diagnostic built from the exception
    that reading the response raised. *)
Theorem call_outcome rt prompt model_id tr :
  ∃ outcome tr',
    call_bedrock_model dumps dumps_indent2 str_of_exn rt prompt model_id tr = (outcome, tr') ∧
    (rt = None ∨ model_id = None ∨ model_id = Some "" →
       outcome = inr (JStr warning)) ∧
    ∀ client id,
      rt = Some client → model_id = Some id → id ≠ "" →
      let diagnostic e :=
        JStr ("Error calling model: " ++ str_of_exn e ++ troubleshooting)%str in
      (∀ e, client id (dumps (request_object prompt id)) = inl e →
         outcome = if is_Exception e then inr (diagnostic e) else inl e) ∧
      (∀ response, client id (dumps (request_object prompt id)) = inr response →
         (∀ e, extract_response dumps_indent2 id response = inl e →
            e ∈ reading_errors ∧ outcome = inr (diagnostic e)) ∧
         if PyStr.contains (PyStr.lower id) "claude" then
           match at_path [Key "content"; Idx 0; Key "text"] response with
           | Some v => outcome = inr v
           | None =>
               outcome = inr (JStr "No content returned") ∨
               ∃ e, extract_response dumps_indent2 id response = inl e
           end
         else if PyStr.contains (PyStr.lower id) "titan" then
           match at_path [Key "results"; Idx 0; Key "outputText"] response with
           | Some v => outcome = inr v
           | None =>
               outcome = inr (JStr "No content returned") ∨
               ∃ e, extract_response dumps_indent2 id response = inl e
           end
         else
           match at_path [Key "generated_text"] response,
                 at_path [Key "completion"] response with
           | Some v, _ => outcome = inr v
           | None, Some v => outcome = inr v
           | None, None =>
               outcome = inr (JStr ("Response received but format unknown: "
                                    ++ dumps_indent2 response)%str) ∨
               extract_response dumps_indent2 id response = inl TypeError
           end).
Proof.
  destruct rt as [client|]; [|eexists _, _; split; [done | split; [done|done]]].
  destruct model_id as [id|]; [|eexists _, _; split; [done | split; [done|done]]].
  destruct (decide (id = "")) as [->|Hne].
  { eexists _, _. split; [done|]. split; [done|]. by intros ?? [= <-] [= <-]. }
  eexists _, _. split; [by apply call_run|]. split.
  { intros [? | [? | [= ?]]]; done. }
  intros ?? [= <-] [= <-] _. cbv zeta. split.
  { by intros e ->. }
  intros response ->.
  change (inr response ≫= extract_response dumps_indent2 id)
    with (extract_response dumps_indent2 id response).
  split.
  { intros e He. rewrite He.
    pose proof (extract_response_raises _ _ _ He) as Hin.
    by rewrite (reading_errors_caught _ Hin). }
  unfold extract_response, mentions.
  destruct (PyStr.contains (PyStr.lower id) "claude");
    [|destruct (PyStr.contains (PyStr.lower id) "titan")].
  - destruct (at_path [Key "content"; Idx 0; Key "text"] response) as [v|] eqn:Hp.
    + by rewrite (at_path_claude _ _ Hp).
    + destruct (claude_text response) as [e|v] eqn:Ex; [right; by exists e|].
      left. apply claude_text_spec in Ex as [-> | ?]; [done | congruence].
  - destruct (at_path [Key "results"; Idx 0; Key "outputText"] response) as [v|] eqn:Hp.
    + by rewrite (at_path_titan _ _ Hp).
    + destruct (titan_text response) as [e|v] eqn:Ex; [right; by exists e|].
      left. apply titan_text_spec in Ex as [-> | ?]; [done | congruence].
  - unfold generic_text.
    destruct response as [| | | |s|l|items]; cbn -[PyStr.append]; auto.
    + destruct (PyStr.contains s "generated_text"); cbn -[PyStr.append]; [auto|].
      destruct (PyStr.contains s "completion"); cbn -[PyStr.append]; auto.
    + destruct (existsb _ l); cbn -[PyStr.append]; [auto|].
      destruct (existsb _ l); cbn -[PyStr.append]; auto.
    + destruct (items_get items "generated_text") as [x|]; cbn -[PyStr.append]; [done|].
      destruct (items_get items "completion") as [x|]; cbn -[PyStr.append]; [done|]. auto.
Qed.

(** C9: without a runtime client, or with no model selected ([None] or the
    empty string), the call returns the fixed warning and logs nothing: no
    request object is serialized and no model is invoked. *)
Theorem unavailable_returns_warning rt prompt model_id tr :
  rt = None ∨ model_id = None ∨ model_id = Some "" →
  call_bedrock_model dumps dumps_indent2 str_of_exn rt prompt model_id tr =
    (inr (JStr "⚠️ Bedrock runtime client not available or no model selected. Please configure AWS properly."),
     tr).
Proof. apply call_unavailable. Qed.

(** C10: whenever a request is built, the one object that is serialized and
    sent caps the output at 2000 tokens, in the field of its family:
    [max_tokens] for claude, [textGenerationConfig.maxTokenCount] for
    titan, [max_gen_len] for llama, [max_tokens] for the generic shape. *)
Theorem request_caps_output rt prompt model_id tr :
  model_id ≠ "" →
  ∃ obj answer,
    call_bedrock_model dumps dumps_indent2 str_of_exn (Some rt) prompt (Some model_id) tr =
      (answer, tr ++ [Dumps obj; InvokeModel model_id (dumps obj)]) ∧
    at_path
      (if PyStr.contains (PyStr.lower model_id) "claude"
       then [Key "max_tokens"]
       else if PyStr.contains (PyStr.lower model_id) "titan"
       then [Key "textGenerationConfig"; Key "maxTokenCount"]
       else if PyStr.contains (PyStr.lower model_id) "llama"
       then [Key "max_gen_len"]
       else [Key "max_tokens"]) obj
    = Some (JInt 2000).
Proof.
  intros Hne. eexists _, _. split; [by apply call_run|].
  unfold request_object, mentions.
  by destruct (PyStr.contains (PyStr.lower model_id) "claude"),
    (PyStr.contains (PyStr.lower model_id) "titan"),
    (PyStr.contains (PyStr.lower model_id) "llama").
Qed.

End AdapterFacts.

(** *** The claims on concrete calls *)

Section AdapterExamples.

Import Bedrock.

Lemma family_dispatch_witness :
  "Anthropic.CLAUDE-v2" ≠ "" ∧
  PyStr.contains (PyStr.lower "Anthropic.CLAUDE-v2") "claude" = true ∧
  ∃ obj,
    call_bedrock_model dumps0 dumps0 str0 (Some claude_client) "Hello"
      (Some "Anthropic.CLAUDE-v2") []
    = (inr (JStr "Bonjour"), [Dumps obj; InvokeModel "Anthropic.CLAUDE-v2" "{}"]) ∧
    at_path [Key "messages"; Idx 0; Key "content"] obj = Some (JStr "Hello").
Proof.
  split; [done|]. split; [by vm_compute|].
  destruct (family_dispatch dumps0 dumps0 str0 claude_client "Hello"
              "Anthropic.CLAUDE-v2" [] ltac:(done))
    as (obj & answer & Hcall & Hclaude & _).
  destruct (Hclaude ltac:(by vm_compute)) as [Hobj Hanswer].
  exists obj. rewrite Hcall.
  rewrite (Hanswer _ (JStr "Bonjour") eq_refl ltac:(by vm_compute)).
  split; [done|]. by rewrite Hobj.
Defined.

(** C7 as stated fails: the response is well-formed JSON whose
    [content[0].text] is the number 42, and the call returns that number,
    which is no string. *)
Lemma call_returns_number :
  (call_bedrock_model dumps0 dumps0 str0 (Some odd_client) "Hello"
     (Some "anthropic.claude-v2") []).1 = inr (JInt 42) ∧
  ¬ is_string (JInt 42).
Proof. split; [by vm_compute | by intros [s ?]]. Qed.

(** C7 as stated fails also here: an interruption from the keyboard during
    the call of the model is no instance of [Exception]; it escapes. *)
Lemma interrupt_escapes :
  (call_bedrock_model dumps0 dumps0 str0 (Some interrupted_client) "Hello"
     (Some "anthropic.claude-v2") []).1 = inl KeyboardInterrupt.
Proof. by vm_compute. Qed.

(** A refused call, a well-formed response and a response without the
    field, as the amended claim describes them. *)
Lemma call_outcome_examples :
  (call_bedrock_model dumps0 dumps0 str0 (Some denied_client) "Hello"
     (Some "anthropic.claude-v2") []).1
  = inr (JStr ("Error calling model: failed" ++ troubleshooting)%str) ∧
  (call_bedrock_model dumps0 dumps0 str0 (Some claude_client) "Hello"
     (Some "anthropic.claude-v2") []).1
  = inr (JStr "Bonjour") ∧
  (call_bedrock_model dumps0 dumps0 str0 (Some claude_client) "Hello"
     (Some "amazon.titan-text-express-v1") []).1
  = inr (JStr "No content returned") ∧
  (call_bedrock_model dumps0 dumps0 str0 (Some claude_client) "Hello"
     (Some "mistral.mistral-7b") []).1
  = inr (JStr "Response received but format unknown: {}").
Proof. by vm_compute. Qed.

Lemma unavailable_returns_warning_witness :
  call_bedrock_model dumps0 dumps0 str0 (Some claude_client) "Hello" (Some "")
    [Dumps JNull]
  = (inr (JStr "⚠️ Bedrock runtime client not available or no model selected. Please configure AWS properly."),
     [Dumps JNull]).
Proof.
  apply (unavailable_returns_warning dumps0 dumps0 str0 (Some claude_client)
           "Hello" (Some "") [Dumps JNull]).
  right; right; reflexivity.
Defined.

Lemma request_caps_output_witness :
  "amazon.titan-text-express-v1" ≠ "" ∧
  ∃ obj answer,
    call_bedrock_model dumps0 dumps0 str0 (Some claude_client) "Hello"
      (Some "amazon.titan-text-express-v1") []
    = (answer, [] ++ [Dumps obj; InvokeModel "amazon.titan-text-express-v1" (dumps0 obj)]) ∧
    at_path
      (if PyStr.contains (PyStr.lower "amazon.titan-text-express-v1") "claude"
       then [Key "max_tokens"]
       else if PyStr.contains (PyStr.lower "amazon.titan-text-express-v1") "titan"
       then [Key "textGenerationConfig"; Key "maxTokenCount"]
       else if PyStr.contains (PyStr.lower "amazon.titan-text-express-v1") "llama"
       then [Key "max_gen_len"]
       else [Key "max_tokens"]) obj
    = Some (JInt 2000).
Proof.
  split; [done|].
  apply (request_caps_output dumps0 dumps0 str0 claude_client "Hello"
           "amazon.titan-text-express-v1" []).
  done.
Defined.

End AdapterExamples.

(** * Further properties *)

(** ** Substrings and trimming *)

Section TrimFacts.

Import PyStr.


Lemma append_assoc (a b c : str) : ((a ++ b) ++ c = a ++ (b ++ c))%str.
Proof. induction a as [|x a IH]; simpl; [done | by f_equal]. Qed.

Lemma append_empty_r (a : str) : (a ++ "")%str = a.
Proof. induction a as [|x a IH]; simpl; [done | by f_equal]. Qed.

Lemma length_append (a b : str) :
  PyStr.len (a ++ b) = PyStr.len a + PyStr.len b.
Proof. induction a as [|x a IH]; simpl; [done | by f_equal]. Qed.

Lemma slice_from_append a b : slice_from (a ++ b) (PyStr.len a) = b.
Proof. induction a as [|x a IH]; simpl; [apply slice_from_0 | done]. Qed.

Lemma startswith_append v post : startswith (v ++ post) v = true.
Proof.
  induction v as [|x v IH]; simpl; [by destruct post|]. by rewrite decide_True.
Qed.

Lemma part_of_refl s : part_of s s.
Proof. exists "", "". simpl. by rewrite append_empty_r. Qed.

Lemma part_of_trans a b c : part_of a b → part_of b c → part_of a c.
Proof.
  intros (p1 & q1 & ->) (p2 & q2 & ->).
  exists (p2 ++ p1)%str, (q1 ++ q2)%str. by rewrite !append_assoc.
Qed.

Lemma part_of_contains v s : part_of v s → contains s v = true.
Proof.
  intros (pre & post & ->). apply contains_find.
  apply (find_is_Some _ _ (PyStr.len pre)).
  rewrite slice_from_append. apply startswith_append.
Qed.

Lemma slice_from_part s n : part_of (slice_from s n) s.
Proof.
  revert s; induction n as [|n IH]; intros s.
  - rewrite slice_from_0. apply part_of_refl.
  - destruct s as [|c s]; [apply part_of_refl|]. simpl.
    destruct (IH s) as (pre & post & Hs). exists (Str c pre), post.
    simpl. by rewrite <- Hs.
Qed.

Lemma slice_to_part s n : part_of (slice_to s n) s.
Proof.
  exists "". simpl. revert s; induction n as [|n IH]; intros s.
  - destruct s; by eexists.
  - destruct s as [|c s]; [by exists ""|]. simpl.
    destruct (IH s) as (post & Hs). exists post. by rewrite <- Hs.
Qed.

Lemma slice_part s a b : part_of (slice s a b) s.
Proof.
  unfold slice. eapply part_of_trans; [apply slice_to_part | apply slice_from_part].
Qed.

Lemma lstrip_part s : part_of (lstrip s) s.
Proof.
  induction s as [|c s IH]; simpl; [apply part_of_refl|].
  destruct (isspace c); [|apply part_of_refl].
  destruct IH as (pre & post & Hs). exists (Str c pre), post.
  simpl. by rewrite <- Hs.
Qed.

Lemma rstrip_prefix s : ∃ post, s = (rstrip s ++ post)%str.
Proof.
  induction s as [|c s IH]; [by exists ""|].
  destruct IH as (post & Hs).
  change (rstrip (Str c s)) with
    (match rstrip s with
     | "" => if isspace c then "" else Str c ""
     | r => Str c r
     end).
  destruct (rstrip s) as [|x r].
  - destruct (isspace c); [by exists (Str c s) | by exists s].
  - exists post. by rewrite Hs at 1.
Qed.

Lemma rstrip_part s : part_of (rstrip s) s.
Proof. destruct (rstrip_prefix s) as (post & Hs). by exists "", post. Qed.

(** What [strip] returns is a contiguous part of its argument. *)
Lemma strip_part s : part_of (strip s) s.
Proof.
  unfold strip. eapply part_of_trans; [apply rstrip_part | apply lstrip_part].
Qed.

Lemma lstrip_no_leading_space s : no_leading_space (lstrip s).
Proof.
  induction s as [|c s IH]; simpl; [done|].
  by destruct (isspace c) eqn:E; simpl.
Qed.

Lemma lstrip_id s : no_leading_space s → lstrip s = s.
Proof. destruct s as [|c s]; simpl; [done|]. by intros ->. Qed.

Lemma rstrip_no_leading_space s : no_leading_space s → no_leading_space (rstrip s).
Proof.
  destruct s as [|c s]; simpl; [done|]. intros Hc.
  destruct (rstrip s); simpl; [by rewrite Hc|done].
Qed.

Lemma rstrip_idemp s : rstrip (rstrip s) = rstrip s.
Proof.
  induction s as [|c s IH]; simpl; [done|].
  destruct (rstrip s) as [|x r] eqn:E.
  - destruct (isspace c) eqn:Hc; simpl; [done|]. by rewrite Hc.
  - change (rstrip (Str c (Str x r))) with
      (match rstrip (Str x r) with
       | "" => if isspace c then "" else Str c ""
       | r' => Str c r'
       end).
    by rewrite IH.
Qed.

(** Trimming twice is trimming once. *)
Lemma strip_idemp s : strip (strip s) = strip s.
Proof.
  unfold strip. rewrite (lstrip_id (rstrip (lstrip s))).
  - apply rstrip_idemp.
  - apply rstrip_no_leading_space, lstrip_no_leading_space.
Qed.

End TrimFacts.

(** ** More on the splitters *)

Section SplitterValues.

(** A found marker's key is bound to a trimmed slice of the text that
    starts at the end of the marker's first occurrence. *)
Lemma run_found s text m k p :
  (m, k) ∈ declared s → PyStr.find text m = Some p →
  ∃ e, run s text !! k =
         Some (PyStr.strip (PyStr.slice text (p + PyStr.len m) e)).
Proof.
  intros Hin Hf. destruct (separated_declared s) as (_ & Hk & _).
  destruct s; cbn [declared run] in *.
  - unfold Corrections.correction_sections.
    destruct (split_sections_slices Corrections.fallback _ text m k p Hk Hin Hf)
      as (l1 & l2 & _ & ->).
    destruct l2 as [|y l2]; simpl; [|by eexists].
    rewrite slice_from_slice. by eexists.
  - unfold Evaluation.parse_evaluation_results.
    rewrite (parse_with_found _ _ _ m k p), section_text_eq by done. by eexists.
  - unfold Evaluation.parse_evaluation_results_1323.
    rewrite (parse_with_found _ _ _ m k p), section_text_eq by done. by eexists.
Qed.

Lemma run_absent s text m k :
  (m, k) ∈ declared s → PyStr.find text m = None →
  run s text !! k =
    match s with
    | CorrectionsParser => Some Corrections.fallback
    | EvaluationParser => Some Evaluation.fallback
    | EvaluationParser1323 => None
    end.
Proof.
  intros Hin Hf. destruct (separated_declared s) as (_ & Hk & _).
  destruct s; cbn [declared run] in *.
  - by apply (split_sections_absent _ _ _ m).
  - by apply (parse_with_absent (Some Evaluation.fallback) _ _ m).
  - by apply (parse_with_absent None _ _ m).
Qed.

Lemma run_dom s text k : is_Some (run s text !! k) → k ∈ (declared s).*2.
Proof.
  destruct s; simpl; [apply split_sections_dom | apply parse_with_dom..].
Qed.

(** Every value of a returned mapping is a trimmed slice of the text or
    the fallback string. *)
Lemma run_value s text k v :
  run s text !! k = Some v →
  (∃ a e, v = PyStr.strip (PyStr.slice text a e)) ∨
  v = match s with
      | CorrectionsParser => Corrections.fallback
      | _ => Evaluation.fallback
      end.
Proof.
  intros Hv.
  assert (k ∈ (declared s).*2) as Hk by (apply (run_dom s text); by rewrite Hv).
  apply list_elem_of_fmap in Hk as ([m k'] & -> & Hin). simpl in *.
  destruct (PyStr.find text m) as [p|] eqn:Hf.
  - destruct (run_found s text m k' p Hin Hf) as (e & He).
    rewrite He in Hv. injection Hv as <-. left. by eexists _, _.
  - rewrite (run_absent s text m k' Hin Hf) in Hv. right.
    destruct s; simpl in Hv; by simplify_eq.
Qed.

End SplitterValues.

(** X1: the corrections parser and [parse_evaluation_results] of line 584
    return total mappings: their key sets are exactly the declared keys,
    whatever the text. *)
Theorem declared_keys_all_bound text :
  dom (Corrections.correction_sections text)
    = {[ "spelling"; "grammar"; "coherence"; "style"; "order"; "proposed" ]} ∧
  dom (Evaluation.parse_evaluation_results text)
    = ({[ "spelling"; "grammar"; "style"; "coherence"; "overall" ]} : gset str).
Proof.
  split; apply set_eq; intros k; rewrite elem_of_dom.
  - split.
    + intros Hk%(run_dom CorrectionsParser text). simpl in Hk.
      rewrite !elem_of_cons, elem_of_nil in Hk.
      rewrite !elem_of_union, !elem_of_singleton. tauto.
    + rewrite !elem_of_union, !elem_of_singleton.
      intros Hk.
      assert (∃ m, (m, k) ∈ declared CorrectionsParser) as [m Hin].
      { simpl. unfold Corrections.sections_to_extract.
        destruct Hk as [[[[[-> | ->] | ->] | ->] | ->] | ->];
          eexists; rewrite !elem_of_cons; eauto 10. }
      destruct (PyStr.find text m) as [p|] eqn:Hf.
      * destruct (run_found _ text m k p Hin Hf) as (e & He). simpl in He.
        by rewrite He.
      * pose proof (run_absent _ text m k Hin Hf) as He. simpl in He.
        by rewrite He.
  - split.
    + intros Hk%(run_dom EvaluationParser text). simpl in Hk.
      rewrite !elem_of_cons, elem_of_nil in Hk.
      rewrite !elem_of_union, !elem_of_singleton. tauto.
    + rewrite !elem_of_union, !elem_of_singleton.
      intros Hk.
      assert (∃ m, (m, k) ∈ declared EvaluationParser) as [m Hin].
      { simpl. unfold Evaluation.section_markers.
        destruct Hk as [[[[-> | ->] | ->] | ->] | ->];
          eexists; rewrite !elem_of_cons; eauto 10. }
      destruct (PyStr.find text m) as [p|] eqn:Hf.
      * destruct (run_found _ text m k p Hin Hf) as (e & He). simpl in He.
        by rewrite He.
      * pose proof (run_absent _ text m k Hin Hf) as He. simpl in He.
        by rewrite He.
Qed.

(** X2: every value stored by a splitter is trimmed: trimming it again
    changes nothing. *)
Theorem stored_values_trimmed s text k v :
  run s text !! k = Some v → PyStr.strip v = v.
Proof.
  intros [(a & e & ->) | ->]%run_value.
  - apply strip_idemp.
  - by destruct s; vm_compute.
Qed.

Lemma stored_values_trimmed_witness :
  run EvaluationParser "preface SPELLING EVALUATION:   x   " !! "spelling"
    = Some "x" ∧
  PyStr.strip "x" = "x".
Proof.
  assert (run EvaluationParser "preface SPELLING EVALUATION:   x   "
            !! "spelling" = Some "x") as H by by vm_compute.
  split; [exact H|].
  exact (stored_values_trimmed EvaluationParser _ "spelling" "x" H).
Defined.

(** X3: a splitter never makes up text: every value it stores occurs in the
    input text, unless it is the fallback string. *)
Theorem stored_values_from_text s text k v :
  run s text !! k = Some v →
  PyStr.contains text v = true ∨
  v = match s with
      | CorrectionsParser => "No corrections needed."
      | _ => "No evaluation available for this section."
      end.
Proof.
  intros [(a & e & ->) | ->]%run_value; [left | right; by destruct s].
  apply part_of_contains.
  eapply part_of_trans; [apply strip_part | apply slice_part].
Qed.

Lemma stored_values_from_text_witness :
  run CorrectionsParser "SPELLING CORRECTIONS: none GRAMMAR CORRECTIONS: fix it"
    !! "grammar" = Some "fix it" ∧
  (PyStr.contains "SPELLING CORRECTIONS: none GRAMMAR CORRECTIONS: fix it"
     "fix it" = true ∨
   "fix it" = "No corrections needed.").
Proof.
  assert (run CorrectionsParser
            "SPELLING CORRECTIONS: none GRAMMAR CORRECTIONS: fix it"
            !! "grammar" = Some "fix it") as H by by vm_compute.
  split; [exact H|].
  exact (stored_values_from_text CorrectionsParser _ "grammar" "fix it" H).
Defined.

Lemma corrections_parser_slices_witness :
  ∃ before after,
    Corrections.sort_by_pos
      (Corrections.find_markers "A: foo B: bar C: baz" abc)
      = before ++ (7, "B:", "B") :: after ∧
    pos_sorted (before ++ (7, "B:", "B") :: after) ∧
    run_with CorrectionsParser abc "A: foo B: bar C: baz" !! "B" =
      Some (PyStr.strip
              (PyStr.slice "A: foo B: bar C: baz" (7 + PyStr.len "B:")
                 (match after with
                  | [] => PyStr.len "A: foo B: bar C: baz"
                  | next :: _ => fm_pos next
                  end))).
Proof.
  apply (corrections_parser_slices abc "A: foo B: bar C: baz" "B:" "B" 7).
  - by apply (bool_decide_unpack _); vm_compute.
  - by apply (bool_decide_unpack _); vm_compute.
  - by vm_compute.
Defined.

Lemma adjacent_free_example :
  adjacent_free Evaluation.section_markers
    "OVERALL EVALUATION: fine SPELLING EVALUATION: two typos".
Proof.
  intros m1 k1 p1 m2 k2 p2 H1 H2 F1 F2.
  unfold Evaluation.section_markers in H1, H2.
  rewrite !elem_of_cons, elem_of_nil in H1.
  rewrite !elem_of_cons, elem_of_nil in H2.
  destruct H1 as [H1 | [H1 | [H1 | [H1 | [H1 | []]]]]]; injection H1 as -> ->;
    vm_compute in F1; try discriminate F1; injection F1 as <-;
    (destruct H2 as [H2 | [H2 | [H2 | [H2 | [H2 | []]]]]]; injection H2 as -> ->;
     vm_compute in F2; try discriminate F2; injection F2 as <-; vm_compute; lia).
Qed.

Lemma parsers_agree_witness :
  Evaluation.parse_with (Some "none") Evaluation.section_markers
    "OVERALL EVALUATION: fine SPELLING EVALUATION: two typos"
  = Corrections.split_sections "none" Evaluation.section_markers
      "OVERALL EVALUATION: fine SPELLING EVALUATION: two typos".
Proof.
  apply (parsers_agree "none" Evaluation.section_markers
           "OVERALL EVALUATION: fine SPELLING EVALUATION: two typos").
  - apply (separated_declared EvaluationParser).
  - apply adjacent_free_example.
Defined.

(** ** More on the inference adapter *)

Section AdapterEdges.

Import Bedrock.

Variable dumps : json → str.
Variable dumps_indent2 : json → str.
Variable str_of_exn : exn → str.

(** X6: when the client raises an instance of [Exception], the call has
    serialized one request and invoked the model once, and it returns the
    diagnostic of that exception: nothing is retried and nothing is
    raised. *)
Theorem client_exception_diagnosed rt prompt model_id tr e :
  model_id ≠ "" →
  rt model_id (dumps (request_object prompt model_id)) = inl e →
  is_Exception e = true →
  call_bedrock_model dumps dumps_indent2 str_of_exn (Some rt) prompt
    (Some model_id) tr =
  (inr (JStr ("Error calling model: " ++ str_of_exn e ++ newline ++ newline
              ++ "Troubleshooting tips:" ++ newline
              ++ "1. Check if you have access to the selected model" ++ newline
              ++ "2. Verify your AWS credentials have proper permissions"
              ++ newline
              ++ "3. Make sure Bedrock is available in your region")%str),
   tr ++ [Dumps (request_object prompt model_id);
          InvokeModel model_id (dumps (request_object prompt model_id))]).
Proof.
  intros Hne He Hexc. rewrite call_run by done. rewrite He.
  change (inl e ≫= extract_response dumps_indent2 model_id) with (inl e : result json).
  cbv beta iota. by rewrite Hexc.
Qed.

(** X7: the edge cases of a claude response.  An object without [content],
    or whose [content[0]] is an object without [text], gives
    [No content returned]; an empty [content] list gives the diagnostic of
    an [IndexError]; a response that is not an object gives the diagnostic
    of an [AttributeError]. *)
Theorem claude_response_edges rt prompt model_id tr response :
  model_id ≠ "" →
  PyStr.contains (PyStr.lower model_id) "claude" = true →
  rt model_id (dumps (request_object prompt model_id)) = inr response →
  let answer :=
    (call_bedrock_model dumps dumps_indent2 str_of_exn (Some rt) prompt
       (Some model_id) tr).1 in
  let diagnostic e :=
    inr (JStr ("Error calling model: " ++ str_of_exn e ++ troubleshooting)%str)
    : result json in
  (at_path [Key "content"] response = None →
     answer = match response with
              | JDict _ => inr (JStr "No content returned")
              | _ => diagnostic AttributeError
              end) ∧
  (at_path [Key "content"] response = Some (JList []) →
     answer = diagnostic IndexError) ∧
  (∀ items rest,
     at_path [Key "content"] response = Some (JList (JDict items :: rest)) →
     items_get items "text" = None →
     answer = inr (JStr "No content returned")).
Proof.
  intros Hne Hc Hr answer diagnostic. unfold answer.
  rewrite call_run by done. rewrite Hr.
  change (inr response ≫= extract_response dumps_indent2 model_id)
    with (extract_response dumps_indent2 model_id response).
  unfold extract_response, mentions. rewrite Hc. unfold claude_text.
  cbn [fst]. split; [|split].
  - destruct response as [| | | | | |items]; try done. simpl.
    by destruct (items_get items "content").
  - destruct response as [| | | | | |items]; try done. simpl.
    destruct (items_get items "content") as [c|]; [|done]. by intros [= ->].
  - intros items' rest. destruct response as [| | | | | |items]; try done. simpl.
    destruct (items_get items "content") as [c|]; [|done]. intros [= ->].
    simpl. by intros ->.
Qed.

(** X8: a model identifier that mentions [llama] (and neither [claude] nor
    [titan]) gets the llama request body, and its response is read like
    that of an unknown family: [generated_text] if the response object has
    that key, else [completion], else the dump of the whole response. *)
Theorem llama_dispatch rt prompt model_id tr :
  model_id ≠ "" →
  PyStr.contains (PyStr.lower model_id) "claude" = false →
  PyStr.contains (PyStr.lower model_id) "titan" = false →
  PyStr.contains (PyStr.lower model_id) "llama" = true →
  ∃ outcome,
    let obj :=
      JDict [ ("prompt", JStr prompt); ("max_gen_len", JInt 2000);
              ("temperature", JFloat "0.7"); ("top_p", JFloat "0.9") ] in
    call_bedrock_model dumps dumps_indent2 str_of_exn (Some rt) prompt
      (Some model_id) tr =
      (outcome, tr ++ [Dumps obj; InvokeModel model_id (dumps obj)]) ∧
    ∀ items,
      rt model_id (dumps obj) = inr (JDict items) →
      outcome =
        inr match items_get items "generated_text" with
            | Some v => v
            | None =>
                match items_get items "completion" with
                | Some v => v
                | None => JStr ("Response received but format unknown: "
                                ++ dumps_indent2 (JDict items))%str
                end
            end.
Proof.
  intros Hne Hc Ht Hl. eexists. rewrite call_run by done.
  unfold request_object, extract_response, mentions. rewrite Hc, Ht, Hl.
  split; [done|]. intros items Hr. unfold llama_body. rewrite Hr. simpl.
  unfold generic_text. simpl.
  destruct (items_get items "generated_text"); simpl; [done|].
  by destruct (items_get items "completion").
Qed.

End AdapterEdges.

Lemma client_exception_diagnosed_witness :
  "anthropic.claude-v2" ≠ "" ∧
  ∃ answer : str,
    Bedrock.call_bedrock_model dumps0 dumps0 str0
      (Some (λ _ _, inl (Bedrock.ClientException "AccessDeniedException")))
      "Hello" (Some "anthropic.claude-v2") [] =
    (inr (Bedrock.JStr answer),
     [Bedrock.Dumps (Bedrock.request_object "Hello" "anthropic.claude-v2");
      Bedrock.InvokeModel "anthropic.claude-v2" "{}"]) ∧
    PyStr.startswith answer "Error calling model: failed" = true.
Proof.
  split; [done|]. eexists. split.
  - apply (client_exception_diagnosed dumps0 dumps0 str0
             (λ _ _, inl (Bedrock.ClientException "AccessDeniedException"))
             "Hello" "anthropic.claude-v2" []
             (Bedrock.ClientException "AccessDeniedException")); done.
  - by vm_compute.
Defined.

Lemma claude_response_edges_witness :
  (Bedrock.call_bedrock_model dumps0 dumps0 str0
     (Some (λ _ _, inr (Bedrock.JDict [("content", Bedrock.JList [])])))
     "Hello" (Some "anthropic.claude-v2") []).1
  = inr (Bedrock.JStr ("Error calling model: failed" ++ Bedrock.troubleshooting)%str).
Proof.
  apply (claude_response_edges dumps0 dumps0 str0
           (λ _ _, inr (Bedrock.JDict [("content", Bedrock.JList [])]))
           "Hello" "anthropic.claude-v2" []
           (Bedrock.JDict [("content", Bedrock.JList [])])); by vm_compute.
Defined.

Lemma llama_dispatch_witness :
  "meta.llama2-13b-chat-v1" ≠ "" ∧
  ∃ outcome,
    Bedrock.call_bedrock_model dumps0 dumps0 str0
      (Some (λ _ _, inr (Bedrock.JDict [("generation", Bedrock.JStr "Hi")])))
      "Hello" (Some "meta.llama2-13b-chat-v1") [] =
    (outcome,
     [Bedrock.Dumps (Bedrock.llama_body "Hello");
      Bedrock.InvokeModel "meta.llama2-13b-chat-v1" "{}"]) ∧
    outcome = inr (Bedrock.JStr "Response received but format unknown: {}").
Proof.
  split; [done|].
  destruct (llama_dispatch dumps0 dumps0 str0
              (λ _ _, inr (Bedrock.JDict [("generation", Bedrock.JStr "Hi")]))
              "Hello" "meta.llama2-13b-chat-v1" []
              ltac:(done) ltac:(by vm_compute) ltac:(by vm_compute)
              ltac:(by vm_compute))
    as (answer & Hcall & Hread).
  exists answer. split; [exact Hcall|].
  by rewrite (Hread [("generation", Bedrock.JStr "Hi")] eq_refl).
Defined.
